(** * Customer retrieval, retry/backoff and photo upload of the
      preschool customer management front-end

    Shallow embedding of
      - [src/services/googleSheetsApi.ts] (class [GoogleSheetsService]),
      - the photo service (class [PhotoService]) and
      - the record types of [types/customer.ts],
    followed by the properties established for them. *)

From Stdlib Require Import List String Ascii ZArith QArith Lia Bool Arith.
From Stdlib Require Import DecimalString Decimal DecimalNat.
Import ListNotations.

Close Scope Q_scope.
Local Open Scope nat_scope.
Local Open Scope string_scope.
Local Open Scope list_scope.

(* ================================================================== *)
(** ** The fragment of JavaScript the services rely on *)
(* ================================================================== *)

Module JS.

(** What a field typed [number] holds at run time: not-a-number, an
    infinity, a finite value, or [null], which is what a JSON text
    carries in the place of a number that is not finite. *)
Inductive number : Type :=
| NaN
| Infinity (negative : bool)
| Finite (q : Q)
| Null.

Definition zero : number := Finite 0%Q.

(** Truthiness of a number: [NaN], zero and [null] are falsy. *)
Definition truthyNumber (n : number) : bool :=
  match n with
  | NaN => false
  | Infinity _ => true
  | Finite q => negb (Qeq_bool q 0%Q)
  | Null => false
  end.

(** [Number.isFinite(n)] *)
Definition isFinite (n : number) : bool :=
  match n with
  | Finite _ => true
  | NaN | Infinity _ | Null => false
  end.

(** Truthiness of a string: only the empty string is falsy. *)
Definition truthy (s : string) : bool :=
  match s with
  | EmptyString => false
  | String _ _ => true
  end.

(** [s || d] on strings. *)
Definition orElse (s d : string) : string :=
  if truthy s then s else d.

(** [n || d] on numbers. *)
Definition orElseNumber (n d : number) : number :=
  if truthyNumber n then n else d.

(** [a[i] || ''] for an array of strings: a missing cell is [undefined],
    which is falsy as well. *)
Definition cell (row : list string) (i : nat) : string :=
  match nth_error row i with
  | Some s => orElse s ""
  | None => ""
  end.

(** [String(n)] for a non-negative integer. *)
Definition toString (n : nat) : string :=
  NilEmpty.string_of_uint (Nat.to_uint n).

(** [String(n)] for a non-negative integer held in binary. *)
Definition toStringN (n : N) : string :=
  NilEmpty.string_of_uint (N.to_uint n).

Fixpoint repeatChar (c : ascii) (n : nat) : string :=
  match n with
  | O => EmptyString
  | S n' => String c (repeatChar c n')
  end.

(** [s.padStart(targetLength, c)] for a one-character pad string. *)
Definition padStart (targetLength : nat) (c : ascii) (s : string) : string :=
  repeatChar c (targetLength - String.length s) ++ s.

(** [hay.includes(needle)]. *)
Fixpoint includes (needle hay : string) : bool :=
  String.prefix needle hay ||
  match hay with
  | EmptyString => false
  | String _ rest => includes needle rest
  end.

(** [a.findIndex(p)], with [None] for -1. *)
Fixpoint findIndex {A : Type} (p : A -> bool) (l : list A) : option nat :=
  match l with
  | [] => None
  | x :: rest =>
      if p x then Some O
      else match findIndex p rest with
           | Some i => Some (S i)
           | None => None
           end
  end.

(** [a.map((x, index) => f(x, index))], the index counted from [start]. *)
Fixpoint mapIndexFrom {A B : Type} (f : A -> nat -> B) (start : nat)
         (l : list A) : list B :=
  match l with
  | [] => []
  | x :: rest => f x start :: mapIndexFrom f (S start) rest
  end.

Definition mapIndex {A B : Type} (f : A -> nat -> B) (l : list A) : list B :=
  mapIndexFrom f 0 l.

(** [a[i] = x] on an array, for an index inside it. *)
Fixpoint assignAt {A : Type} (i : nat) (x : A) (l : list A) : list A :=
  match l, i with
  | [], _ => []
  | _ :: rest, O => x :: rest
  | y :: rest, S i' => y :: assignAt i' x rest
  end.

(** [a[i].field = v] on an array of objects, for an index inside it: the
    element at [i] is changed in place by [f]. *)
Fixpoint updateAt {A : Type} (i : nat) (f : A -> A) (l : list A) : list A :=
  match l, i with
  | [], _ => []
  | y :: rest, O => f y :: rest
  | y :: rest, S i' => y :: updateAt i' f rest
  end.

(** White space as [trim] sees it, restricted to the one-byte
    characters: tab, line feed, vertical tab, form feed, carriage return
    and space. *)
Definition isWhiteSpace (c : ascii) : bool :=
  let n := nat_of_ascii c in
  ((9 <=? n) && (n <=? 13) || (n =? 32))%nat.

Fixpoint trimStart (s : string) : string :=
  match s with
  | EmptyString => EmptyString
  | String c rest => if isWhiteSpace c then trimStart rest else s
  end.

Fixpoint trimEnd (s : string) : string :=
  match s with
  | EmptyString => EmptyString
  | String c rest =>
      match trimEnd rest with
      | EmptyString => if isWhiteSpace c then EmptyString
                       else String c EmptyString
      | kept => String c kept
      end
  end.

(** [s.trim()] *)
Definition trim (s : string) : string := trimEnd (trimStart s).

(** An [Error] object; only its message is ever inspected. *)
Record Error : Type := mkError { message : string }.

End JS.

(* ================================================================== *)
(** ** What [fetch] can answer *)
(* ================================================================== *)

Module Http.
Import JS.

(** The result of [response.json()]: a rejection, or an object whose
    [values] field is a grid or is missing. *)
Inductive Json : Type :=
| Malformed (e : Error)
| Object (values : option (list (list string))).

Record Response : Type := mkResponse {
  status : nat;
  text : string;
  json : Json
}.

(** [response.ok]: a status in the range 200-299. *)
Definition ok (r : Response) : bool :=
  ((200 <=? status r) && (status r <=? 299))%nat.

(** A [fetch] call rejects (network failure) or resolves. *)
Inductive Reply : Type :=
| Rejected (e : Error)
| Resolved (r : Response).

End Http.

(* ================================================================== *)
(** ** [GoogleSheetsService]: data model and row parsing *)
(* ================================================================== *)

Module GoogleSheetsService.
Import JS.

(** [status: 'active' | 'inactive'] *)
Inductive Status : Type := active | inactive.

(** [interface CustomerData] of [types/customer.ts].  The optional
    fields are options; [petType] is a string at run time, the union
    type being imposed by a cast only. *)
Record CustomerData : Type := mkCustomer {
  id : string;
  name : string;
  furigana : option string;
  petName : string;
  email : string;
  phone : string;
  address : string;
  petType : string;
  breed : string;
  age : number;
  weight : number;
  imageUrl : option string;
  notes : string;
  createdAt : string;
  lastVisit : option string;
  status : Status
}.

(** [JSON.parse(JSON.stringify(n))] for the value of a numeric field:
    [JSON.stringify] writes [null] for a number that is not finite. *)
Definition jsonNumber (n : number) : number :=
  match n with
  | Finite q => Finite q
  | NaN | Infinity _ | Null => Null
  end.

(** [JSON.parse(JSON.stringify(customer))]: the strings come back as
    they are, an optional field that is [undefined] is left out and
    comes back [undefined], and the two numbers go through
    [jsonNumber]. *)
Definition jsonCustomer (customer : CustomerData) : CustomerData :=
  {| id := id customer;
     name := name customer;
     furigana := furigana customer;
     petName := petName customer;
     email := email customer;
     phone := phone customer;
     address := address customer;
     petType := petType customer;
     breed := breed customer;
     age := jsonNumber (age customer);
     weight := jsonNumber (weight customer);
     imageUrl := imageUrl customer;
     notes := notes customer;
     createdAt := createdAt customer;
     lastVisit := lastVisit customer;
     status := status customer |}.

(** [JSON.parse(JSON.stringify(customers))] *)
Definition jsonRoundTrip (customers : list CustomerData)
  : list CustomerData :=
  map jsonCustomer customers.

(** [Number.isFinite(customer.age) && Number.isFinite(customer.weight)] *)
Definition finiteNumbers (customer : CustomerData) : bool :=
  isFinite (age customer) && isFinite (weight customer).

Definition MAX_RETRIES : nat := 3.
Definition RETRY_DELAY : Z := 2000.
Definition MIN_API_INTERVAL : Z := 1000.

(** The default pet category, [U+305D U+306E U+4ED6] in UTF-8. *)
Definition otherPet : string := "その他".

Section Parsing.

(** The built-ins [parseInt] and [parseFloat]. *)
Variable parseInt : string -> number.
Variable parseFloat : string -> number.

(** [`C${String(index + 1).padStart(3, '0')}`] *)
Definition customerId (index : nat) : string :=
  "C" ++ padStart 3 "0"%char (toString (index + 1)).

(** The object literal built for one data row.  [today] stands for
    [new Date().toISOString().split('T')[0]].  Only positional cells
    are read; the header-driven [getValue] closure of the source (the
    only place that trims a cell) is never called. *)
Definition customerOfRow (today : string) (row : list string)
           (index : nat) : CustomerData :=
  {| id := customerId index;
     name := cell row 1;
     furigana := Some (cell row 2);
     email := cell row 3;
     phone := cell row 4;
     address := cell row 5;
     petName := cell row 6;
     petType := orElse (cell row 7) otherPet;
     breed := "";
     age := orElseNumber (parseInt (orElse (cell row 8) "0")) zero;
     weight := orElseNumber (parseFloat (orElse (cell row 9) "0")) zero;
     imageUrl := Some "";
     notes := cell row 10;
     createdAt := orElse (cell row 11) today;
     lastVisit := Some (cell row 12);
     status := active |}.

(** The predicate of the final [.filter]: [customer.name &&
    customer.petName]. *)
Definition hasNames (customer : CustomerData) : bool :=
  truthy (name customer) && truthy (petName customer).

Definition parseSheetData (today : string) (values : list (list string))
  : list CustomerData :=
  if (List.length values <? 2)%nat then []
  else
    let dataRows := tl values in
    filter hasNames (mapIndex (customerOfRow today) dataRows).

End Parsing.

(* ---------------------------------------------------------------- *)
(** *** The world the service runs in *)

(** The instance fields set by the constructor (already trimmed there)
    together with [process.env.NODE_ENV]. *)
Record Config : Type := mkConfig {
  NODE_ENV : string;
  spreadsheetId : string;
  apiKey : string
}.

(** One value of the row the write path builds, or of the row its
    request carries. *)
Inductive Cell : Type :=
| CellString (s : string)
| CellNumber (n : number)
| CellUndefined
| CellNull.

(** What [JSON.stringify] makes of a value inside an array: [undefined]
    and a number that is not finite are written as [null]. *)
Definition jsonCell (c : Cell) : Cell :=
  match c with
  | CellString s => CellString s
  | CellNumber (Finite q) => CellNumber (Finite q)
  | CellNumber _ | CellUndefined | CellNull => CellNull
  end.

(** [JSON.stringify({ values })], kept as the rows the text carries. *)
Definition jsonValues (values : list (list Cell)) : list (list Cell) :=
  map (map jsonCell) values.

(** The requests the service sends; [values] in [PutValues] are the rows
    of its JSON body. *)
Inductive Request : Type :=
| GetSpreadsheet (spreadsheet key : string)
| GetValues (spreadsheet sheetName key : string)
| PutValues (spreadsheet : string) (rowNumber : nat) (key : string)
            (values : list (list Cell)).

(** What a run leaves behind for an observer: the requests sent, the
    timed waits, and the console lines of the retry loop and of a
    successful read (the other console lines carry nothing used here
    and are not recorded). *)
Inductive Event : Type :=
| LogAttempt (attempt : nat)
| LogAttemptFailed (attempt : nat) (error : Error)
| LogRetryWait (delay : Z)
| LogParsed (parsedData : list CustomerData)
| Slept (ms : Z)
| Sent (request : Request).

(** The answers of the remote side to one call of
    [fetchFromGoogleSheets]: to the spreadsheet-information request and
    to the values request. *)
Record Exchange : Type := mkExchange {
  infoReply : Http.Reply;
  valuesReply : Http.Reply
}.

(** The mutable state and the environment of one call of the service.
    [stored] is the content of the local-storage key of the customers:
    [None] when the key is absent, empty or does not parse, [Some l]
    when it holds a JSON text, which [JSON.parse] reads as
    [jsonRoundTrip l].  [writable] tells whether [localStorage.setItem]
    succeeds.  The clock advances with timed waits only, requests being
    answered at once.  The service object is shared: while this call is
    suspended in a timed wait, other calls of [getCustomers] run and may
    write [lastApiCall]; [overlapping t last] is the value this call
    finds there when it wakes up at time [t], having left [last] (with
    no other call under way, [last] itself).  Of what such calls do,
    only this is followed; the cache is taken as left alone by them. *)
Record World : Type := mkWorld {
  now : Z;
  lastApiCall : Z;
  overlapping : Z -> Z -> Z;
  stored : option (list CustomerData);
  writable : bool;
  exchanges : nat -> Exchange;
  fetchCalls : nat;
  putReplies : nat -> Http.Reply;
  putCalls : nat;
  today : string
}.

Definition withNow (t : Z) (w : World) : World :=
  mkWorld t (lastApiCall w) (overlapping w) (stored w) (writable w)
          (exchanges w) (fetchCalls w) (putReplies w) (putCalls w)
          (today w).

Definition withLastApiCall (t : Z) (w : World) : World :=
  mkWorld (now w) t (overlapping w) (stored w) (writable w)
          (exchanges w) (fetchCalls w) (putReplies w) (putCalls w)
          (today w).

Definition withStored (l : option (list CustomerData)) (w : World) : World :=
  mkWorld (now w) (lastApiCall w) (overlapping w) l (writable w)
          (exchanges w) (fetchCalls w) (putReplies w) (putCalls w)
          (today w).

Definition withFetchCalls (n : nat) (w : World) : World :=
  mkWorld (now w) (lastApiCall w) (overlapping w) (stored w) (writable w)
          (exchanges w) n (putReplies w) (putCalls w) (today w).

Definition withPutCalls (n : nat) (w : World) : World :=
  mkWorld (now w) (lastApiCall w) (overlapping w) (stored w) (writable w)
          (exchanges w) (fetchCalls w) (putReplies w) n (today w).

(* ---------------------------------------------------------------- *)
(** *** Computations: state, exceptions and an event log *)

Inductive Outcome (A : Type) : Type :=
| Returned (a : A)
| Thrown (e : Error).
Arguments Returned {A} a.
Arguments Thrown {A} e.

Record Run (A : Type) : Type := mkRun {
  outcome : Outcome A;
  final : World;
  events : list Event
}.
Arguments mkRun {A} _ _ _.
Arguments outcome {A} _.
Arguments final {A} _.
Arguments events {A} _.

Definition Eff (A : Type) : Type := World -> Run A.

Definition ret {A : Type} (a : A) : Eff A :=
  fun w => mkRun (Returned a) w [].

Definition throw {A : Type} (e : Error) : Eff A :=
  fun w => mkRun (Thrown e) w [].

Definition bind {A B : Type} (m : Eff A) (k : A -> Eff B) : Eff B :=
  fun w =>
    let r := m w in
    match outcome r with
    | Returned a =>
        let r' := k a (final r) in
        mkRun (outcome r') (final r') (events r ++ events r')
    | Thrown e => mkRun (Thrown e) (final r) (events r)
    end.

(** [try { body } catch (error) { handler }] *)
Definition tryCatch {A : Type} (body : Eff A) (handler : Error -> Eff A)
  : Eff A :=
  fun w =>
    let r := body w in
    match outcome r with
    | Returned a => r
    | Thrown e =>
        let r' := handler e (final r) in
        mkRun (outcome r') (final r') (events r ++ events r')
    end.

Definition emit (e : Event) : Eff unit :=
  fun w => mkRun (Returned tt) w [e].

Definition ask : Eff World :=
  fun w => mkRun (Returned w) w [].

Definition update (f : World -> World) : Eff unit :=
  fun w => mkRun (Returned tt) (f w) [].

Declare Scope eff_scope.
Delimit Scope eff_scope with eff.
Notation "x <- m ;; k" := (bind m (fun x => k))
  (at level 61, m at next level, right associativity) : eff_scope.
Notation "m ;; k" := (bind m (fun _ => k))
  (at level 61, right associativity) : eff_scope.
Local Open Scope eff_scope.

(** The world a call wakes up in after a timed wait of [ms]
    milliseconds: the clock has advanced, and [lastApiCall] is what the
    calls that ran meanwhile have left. *)
Definition wakeUp (ms : Z) (w : World) : World :=
  let t := (now w + ms)%Z in
  withLastApiCall (overlapping w t (lastApiCall w)) (withNow t w).

(** [await this.sleep(ms)]: the call is suspended until the timer
    fires. *)
Definition sleep (ms : Z) : Eff unit :=
  emit (Slept ms) ;; update (wakeUp ms).

(** [await fetch(url, ...)], answered by [reply]. *)
Definition fetch (request : Request) (reply : Http.Reply)
  : Eff Http.Response :=
  emit (Sent request) ;;
  match reply with
  | Http.Rejected e => throw e
  | Http.Resolved r => ret r
  end.

(** [await response.json()] *)
Definition jsonOf (r : Http.Response)
  : Eff (option (list (list string))) :=
  match Http.json r with
  | Http.Malformed e => throw e
  | Http.Object values => ret values
  end.

(* ---------------------------------------------------------------- *)
(** *** The local cache *)

(** [getLocalCustomers]: [JSON.parse] of the stored text; every
    failure is caught and yields [[]]. *)
Definition getLocalCustomers : Eff (list CustomerData) :=
  w <- ask ;;
  match stored w with
  | Some data => ret (jsonRoundTrip data)
  | None => ret []
  end.

(** [localStorage.setItem(key, JSON.stringify(customers))]: what the key
    holds afterwards is the JSON text of [customers], kept here as the
    array that text parses to. *)
Definition setItem (customers : list CustomerData) : Eff unit :=
  w <- ask ;;
  if writable w then update (withStored (Some (jsonRoundTrip customers)))
  else throw (mkError "QuotaExceededError").

(** [saveLocalCustomers]: a failed write is logged and swallowed. *)
Definition saveLocalCustomers (customers : list CustomerData) : Eff unit :=
  tryCatch (setItem customers) (fun _ => ret tt).

(* ---------------------------------------------------------------- *)
(** *** Reading the sheet, with retries *)

(** [error.message.includes('429') ||
     error.message.includes('RATE_LIMIT_EXCEEDED')] *)
Definition isRateLimit (error : Error) : bool :=
  includes "429" (message error) ||
  includes "RATE_LIMIT_EXCEEDED" (message error).

Definition sheetName : string := "フォームの回答".

(** The error thrown once the loop has used up its attempts. *)
Definition exhausted : Error := mkError "最大リトライ回数に達しました".

Section Service.

Variable parseInt : string -> number.
Variable parseFloat : string -> number.
Variable cfg : Config.

(** [fetchFromGoogleSheets]; its own [catch] logs and rethrows. *)
Definition fetchFromGoogleSheets : Eff (list CustomerData) :=
  w <- ask ;;
  let exchange := exchanges w (fetchCalls w) in
  update (withFetchCalls (S (fetchCalls w))) ;;
  infoResponse <-
    fetch (GetSpreadsheet (trim (spreadsheetId cfg)) (apiKey cfg))
          (infoReply exchange) ;;
  if negb (Http.ok infoResponse) then
    throw (mkError ("Spreadsheet info request failed: "
                    ++ toString (Http.status infoResponse)))
  else
    _ <- jsonOf infoResponse ;;
    response <-
      fetch (GetValues (trim (spreadsheetId cfg)) sheetName (apiKey cfg))
            (valuesReply exchange) ;;
    if negb (Http.ok response) then
      throw (mkError ("HTTP error! status: "
                      ++ toString (Http.status response)
                      ++ ", message: " ++ Http.text response))
    else
      values <- jsonOf response ;;
      let parsedData :=
        parseSheetData parseInt parseFloat (today w)
          (match values with Some grid => grid | None => [] end) in
      emit (LogParsed parsedData) ;;
      ret parsedData.

(** [RETRY_DELAY * Math.pow(2, attempt - 1)] *)
Definition backoffDelay (attempt : nat) : Z :=
  (RETRY_DELAY * 2 ^ (Z.of_nat attempt - 1))%Z.

(** The [for] loop of [fetchFromGoogleSheetsWithRetry], entered with
    the counter at [attempt] and [remaining = MAX_RETRIES - attempt + 1]
    iterations to go; the loop ends, and the final [throw] is reached,
    when none remains. *)
Fixpoint attemptLoop (remaining attempt : nat)
  : Eff (list CustomerData) :=
  match remaining with
  | O => throw exhausted
  | S remaining' =>
      tryCatch
        (emit (LogAttempt attempt) ;;
         w <- ask ;;
         update (withLastApiCall (now w)) ;;
         fetchFromGoogleSheets)
        (fun error =>
           emit (LogAttemptFailed attempt error) ;;
           if isRateLimit error then
             let delay := backoffDelay attempt in
             emit (LogRetryWait delay) ;;
             sleep delay ;;
             attemptLoop remaining' (S attempt)
           else if (attempt =? MAX_RETRIES)%nat then
             localData <- getLocalCustomers ;;
             if (0 <? List.length localData)%nat then ret localData
             else ret []
           else throw error)
  end.

Definition fetchFromGoogleSheetsWithRetry : Eff (list CustomerData) :=
  w <- ask ;;
  let timeSinceLastCall := (now w - lastApiCall w)%Z in
  (if (timeSinceLastCall <? MIN_API_INTERVAL)%Z then
     let waitTime := (MIN_API_INTERVAL - timeSinceLastCall)%Z in
     sleep waitTime
   else ret tt) ;;
  attemptLoop MAX_RETRIES 1.

Definition configured : bool :=
  (NODE_ENV cfg =? "production")%string
  && truthy (spreadsheetId cfg) && truthy (apiKey cfg).

Definition getCustomers : Eff (list CustomerData) :=
  if configured then
    tryCatch
      (data <- fetchFromGoogleSheetsWithRetry ;;
       saveLocalCustomers data ;;
       ret data)
      (fun error =>
         localData <- getLocalCustomers ;;
         if (0 <? List.length localData)%nat then ret localData
         else ret [])
  else fetchFromGoogleSheetsWithRetry.

(* -------------------------------------------------------------- *)
(** *** Updating a record *)

Definition sameId (a b : CustomerData) : bool :=
  (id b =? id a)%string.

Definition optionalCell (s : option string) : Cell :=
  match s with
  | Some v => CellString v
  | None => CellUndefined
  end.

(** The row built for the write, columns A to M. *)
Definition rowData (customer : CustomerData) : list Cell :=
  [ CellString "";
    CellString (name customer);
    CellString (match furigana customer with
                | Some v => orElse v ""
                | None => ""
                end);
    CellString (email customer);
    CellString (phone customer);
    CellString (address customer);
    CellString (petName customer);
    CellString (petType customer);
    CellNumber (age customer);
    CellNumber (weight customer);
    CellString (notes customer);
    CellString (createdAt customer);
    optionalCell (lastVisit customer) ].

Definition notFound : Error := mkError "顧客が見つかりません".

(** [updateCustomerInSheets]; its own [catch] logs and rethrows.  The
    text of the error body stands for its re-serialised JSON. *)
Definition updateCustomerInSheets (customer : CustomerData) : Eff unit :=
  customers <- getCustomers ;;
  match findIndex (sameId customer) customers with
  | None => throw notFound
  | Some customerIndex =>
      let rowNumber := customerIndex + 2 in
      w <- ask ;;
      let reply := putReplies w (putCalls w) in
      update (withPutCalls (S (putCalls w))) ;;
      response <-
        fetch (PutValues (spreadsheetId cfg) rowNumber (apiKey cfg)
                         (jsonValues [rowData customer]))
              reply ;;
      if negb (Http.ok response) then
        _ <- jsonOf response ;;
        throw (mkError ("Google Sheets API エラー: "
                        ++ toString (Http.status response)
                        ++ " - " ++ Http.text response))
      else ret tt
  end.

(** [updateCustomer]; its own [catch] logs and rethrows. *)
Definition updateCustomer (updatedCustomer : CustomerData) : Eff unit :=
  customers <- getLocalCustomers ;;
  match findIndex (sameId updatedCustomer) customers with
  | None => throw notFound
  | Some customerIndex =>
      saveLocalCustomers (assignAt customerIndex updatedCustomer customers) ;;
      if (NODE_ENV cfg =? "production")%string then
        updateCustomerInSheets updatedCustomer
      else ret tt
  end.

(** [getCustomerById]: [customers.find(...) || null], with [None] for
    [null]. *)
Definition getCustomerById (wanted : string) : Eff (option CustomerData) :=
  customers <- getCustomers ;;
  ret (find (fun customer => (id customer =? wanted)%string) customers).

(** [refreshFromSheets] *)
Definition refreshFromSheets : Eff (list CustomerData) := getCustomers.

End Service.

(* ---------------------------------------------------------------- *)
(** *** Operations on the cache alone *)

(** [clearLocalData]: [localStorage.removeItem(key)]. *)
Definition clearLocalData : Eff unit := update (withStored None).

(** [deleteCustomer]: whatever fails inside is logged and swallowed. *)
Definition deleteCustomer (wanted : string) : Eff unit :=
  tryCatch
    (customers <- getLocalCustomers ;;
     let updatedCustomers :=
       filter (fun customer => negb (id customer =? wanted)%string)
              customers in
     saveLocalCustomers updatedCustomers)
    (fun _ => ret tt).

(** [deleteCustomerCompletely]: the removal from the sheet is commented
    out in the source; its own [catch] logs and rethrows. *)
Definition deleteCustomerCompletely (wanted : string) : Eff unit :=
  deleteCustomer wanted.

(* ---------------------------------------------------------------- *)
(** *** Reading a run *)

(** What [getLocalCustomers] returns in a world. *)
Definition localCustomers (w : World) : list CustomerData :=
  match stored w with
  | Some data => jsonRoundTrip data
  | None => []
  end.

(** The events [fetchFromGoogleSheets] itself emits. *)
Definition remoteEvent (ev : Event) : bool :=
  match ev with
  | Sent _ | LogParsed _ => true
  | _ => false
  end.

Definition isAttempt (ev : Event) : bool :=
  match ev with
  | LogAttempt _ => true
  | _ => false
  end.

(** The number of remote attempts a log shows. *)
Definition attemptsMade (evs : list Event) : nat :=
  List.length (filter isAttempt evs).

(** The time, in milliseconds, a log shows spent in timed waits. *)
Fixpoint waited (evs : list Event) : Z :=
  match evs with
  | [] => 0
  | Slept ms :: rest => ms + waited rest
  | _ :: rest => waited rest
  end.

End GoogleSheetsService.

(* ================================================================== *)
(** ** [PhotoService]: locally stored photos *)
(* ================================================================== *)

Module PhotoService.
Import JS.

(** [interface PetPhoto] of [types/customer.ts]. *)
Record PetPhoto : Type := mkPhoto {
  id : string;
  customerId : string;
  fileName : string;
  dataUrl : string;
  fileSize : N;
  uploadedAt : string;
  description : option string
}.

(** [interface PhotoUploadResult] of [types/customer.ts]. *)
Record PhotoUploadResult : Type := mkResult {
  success : bool;
  photo : option PetPhoto;
  error : option string
}.

(** The two properties of a [File] the service reads. *)
Record File : Type := mkFile {
  name : string;
  size : N
}.

Definition MAX_PHOTOS_PER_CUSTOMER : nat := 50.
Definition MAX_FILE_SIZE : N := 5 * 1024 * 1024.

(** The browser as the service sees it.  [stored] is the content of the
    key [pet_photos] ([None] when absent, empty or unreadable); a photo
    holds strings, a size in bytes and an optional description, which
    come back from [JSON.parse(JSON.stringify(...))] as they went in, so
    the list stands for its JSON text;
    [writable] tells whether [localStorage.setItem] succeeds;
    [readAsDataURL] is the answer of the [FileReader] ([None] when it
    reports an error); [clock], [randomSuffix] and [isoTime] stand for
    [Date.now()], [Math.random().toString(36).substr(2, 9)] and
    [new Date().toISOString()]. *)
Record World : Type := mkWorld {
  stored : option (list PetPhoto);
  writable : bool;
  readAsDataURL : File -> option string;
  clock : N;
  randomSuffix : string;
  isoTime : string
}.

Definition withStored (l : option (list PetPhoto)) (w : World) : World :=
  mkWorld l (writable w) (readAsDataURL w) (clock w) (randomSuffix w)
          (isoTime w).

Definition getAllPhotos (w : World) : list PetPhoto :=
  match stored w with
  | Some photos => photos
  | None => []
  end.

Definition getPhotosByCustomerId (customer : string) (w : World)
  : list PetPhoto :=
  filter (fun photo => (customerId photo =? customer)%string)
         (getAllPhotos w).

Definition rejected (message : string) : PhotoUploadResult :=
  {| success := false; photo := None; error := Some message |}.

Definition tooLarge : string :=
  "ファイルサイズが大きすぎます。最大"
  ++ toStringN (MAX_FILE_SIZE / (1024 * 1024)) ++ "MBまでです。".

Definition tooMany : string :=
  "1顧客あたり最大" ++ toString MAX_PHOTOS_PER_CUSTOMER ++ "枚までです。".

Definition uploadFailed : string := "写真のアップロードに失敗しました。".

(** [uploadPhoto]: the result together with the world it leaves.  The
    enclosing [catch] turns a failed read of the file and a failed
    write of the storage into the generic failure result. *)
Definition uploadPhoto (customer : string) (file : File)
           (descr : option string) (w : World)
  : PhotoUploadResult * World :=
  if (MAX_FILE_SIZE <? size file)%N then (rejected tooLarge, w)
  else
    let customerPhotos := getPhotosByCustomerId customer w in
    if (MAX_PHOTOS_PER_CUSTOMER <=? List.length customerPhotos)%nat then
      (rejected tooMany, w)
    else
      match readAsDataURL w file with
      | None => (rejected uploadFailed, w)
      | Some url =>
          let newPhoto :=
            {| id := "photo_" ++ toStringN (clock w) ++ "_"
                     ++ randomSuffix w;
               customerId := customer;
               fileName := name file;
               dataUrl := url;
               fileSize := size file;
               uploadedAt := isoTime w;
               description := descr |} in
          let allPhotos := getAllPhotos w ++ [newPhoto] in
          if writable w then
            ({| success := true; photo := Some newPhoto; error := None |},
             withStored (Some allPhotos) w)
          else (rejected uploadFailed, w)
      end.

(** [deletePhoto] *)
Definition deletePhoto (photoId : string) (w : World) : bool * World :=
  let allPhotos := getAllPhotos w in
  let filteredPhotos :=
    filter (fun photo => negb (id photo =? photoId)%string) allPhotos in
  if (List.length filteredPhotos =? List.length allPhotos)%nat then (false, w)
  else if writable w then (true, withStored (Some filteredPhotos) w)
  else (false, w).

(** [deletePhotosByCustomerId] *)
Definition deletePhotosByCustomerId (customer : string) (w : World)
  : nat * World :=
  let allPhotos := getAllPhotos w in
  let filteredPhotos :=
    filter (fun photo => negb (customerId photo =? customer)%string)
           allPhotos in
  let deletedCount := List.length allPhotos - List.length filteredPhotos in
  if writable w then (deletedCount, withStored (Some filteredPhotos) w)
  else (0, w).

(** [clearAllPhotos]: [localStorage.removeItem(key)]. *)
Definition clearAllPhotos (w : World) : bool * World :=
  (true, withStored None w).

Definition withDescription (text : string) (p : PetPhoto) : PetPhoto :=
  {| id := id p; customerId := customerId p; fileName := fileName p;
     dataUrl := dataUrl p; fileSize := fileSize p;
     uploadedAt := uploadedAt p; description := Some text |}.

(** [updatePhotoDescription] *)
Definition updatePhotoDescription (photoId text : string) (w : World)
  : bool * World :=
  let allPhotos := getAllPhotos w in
  match findIndex (fun photo => (id photo =? photoId)%string) allPhotos with
  | None => (false, w)
  | Some photoIndex =>
      let updated := updateAt photoIndex (withDescription text) allPhotos in
      if writable w then (true, withStored (Some updated) w)
      else (false, w)
  end.

End PhotoService.

(* ================================================================== *)
(** ** Sample data *)
(* ================================================================== *)

Module Sample.
Import JS GoogleSheetsService.

(** A reader of plain decimal numerals; on such strings it agrees with
    both [parseInt] and [parseFloat].  The sample rows hold nothing
    else in their numeric cells. *)
Definition parseDecimal (s : string) : number :=
  match s with
  | EmptyString => NaN
  | _ =>
      match NilEmpty.uint_of_string s with
      | Some d => Finite (inject_Z (Z.of_nat (Nat.of_uint d)))
      | None => NaN
      end
  end.

(** A reader that knows, besides the plain numerals, the one word
    [parseFloat] reads as a number. *)
Definition parseNumeral (s : string) : number :=
  if (s =? "Infinity")%string then Infinity false else parseDecimal s.

Definition header : list string :=
  [ "タイムスタンプ"; "お名前"; "ふりがな"; "メール"; "電話"; "住所";
    "ペット名"; "犬種"; "年齢"; "体重"; "備考"; "登録日"; "最終来店" ].

Definition tanaka : list string :=
  [ "2024/01/05 10:00:00"; "田中"; "たなか"; "tanaka@example.com";
    "090-0000-0001"; "東京"; "ポチ"; "犬"; "3"; "12"; "";
    "2024-01-05"; "" ].

Definition sato : list string :=
  [ "2024/02/11 09:30:00"; "佐藤"; "さとう"; "sato@example.com";
    "090-0000-0002"; "大阪"; "タマ"; "猫"; "5"; "4" ].

(** A row whose owner name is a single space. *)
Definition blankOwner : list string :=
  [ "2024/03/01 12:00:00"; " "; ""; "x@example.com"; ""; ""; "ハチ" ].

Definition grid : list (list string) := [ header; tanaka; sato ].

(** A row whose weight cell reads [Infinity]. *)
Definition yamada : list string :=
  [ "2024/04/02 15:45:00"; "山田"; "やまだ"; "yamada@example.com";
    "090-0000-0003"; "京都"; "クロ"; "犬"; "2"; "Infinity" ].

Definition day : string := "2025-01-01".

Definition production : Config :=
  {| NODE_ENV := "production"; spreadsheetId := "sheet-1";
     apiKey := "key-1" |}.

Definition development : Config :=
  {| NODE_ENV := "development"; spreadsheetId := "sheet-1";
     apiKey := "key-1" |}.

(** Production, but no spreadsheet identifier. *)
Definition noSpreadsheet : Config :=
  {| NODE_ENV := "production"; spreadsheetId := ""; apiKey := "key-1" |}.

Definition success (values : list (list string)) : Exchange :=
  {| infoReply :=
       Http.Resolved (Http.mkResponse 200 "{}" (Http.Object None));
     valuesReply :=
       Http.Resolved
         (Http.mkResponse 200 "{...}" (Http.Object (Some values))) |}.

Definition answered (code : nat) (body : string) : Http.Reply :=
  Http.Resolved (Http.mkResponse code body (Http.Object None)).

(** Throttled: the information request is answered with 429. *)
Definition throttled : Exchange :=
  {| infoReply := answered 429 "RATE_LIMIT_EXCEEDED";
     valuesReply := answered 429 "RATE_LIMIT_EXCEEDED" |}.

(** The information request is answered with 404. *)
Definition missing : Exchange :=
  {| infoReply := answered 404 "NOT_FOUND";
     valuesReply := answered 404 "NOT_FOUND" |}.

(** The values request is answered with a body that is not JSON. *)
Definition garbled : Exchange :=
  {| infoReply :=
       Http.Resolved (Http.mkResponse 200 "{}" (Http.Object None));
     valuesReply :=
       Http.Resolved
         (Http.mkResponse 200 "<html>"
            (Http.Malformed (mkError "Unexpected token < in JSON"))) |}.

Definition tooManyRequests : Error :=
  mkError "Spreadsheet info request failed: 429".

Definition notFound404 : Error :=
  mkError "Spreadsheet info request failed: 404".

Definition badJson : Error := mkError "Unexpected token < in JSON".

(** A record cached earlier that the sheet no longer holds. *)
Definition formerCustomer : CustomerData :=
  {| id := "C003"; name := "鈴木"; furigana := Some "すずき";
     petName := "モモ"; email := "suzuki@example.com"; phone := "";
     address := ""; petType := "犬"; breed := ""; age := zero;
     weight := zero; imageUrl := Some ""; notes := "";
     createdAt := "2023-12-01"; lastVisit := Some ""; status := active |}.

Definition world (cache : option (list CustomerData))
           (remote : nat -> Exchange) : World :=
  {| now := 5000; lastApiCall := 0; overlapping := fun _ last => last;
     stored := cache; writable := true;
     exchanges := remote; fetchCalls := 0;
     putReplies := fun _ => answered 200 "{}"; putCalls := 0;
     today := day |}.

(** Two throttled attempts, then a good answer. *)
Definition thirdTimeLucky : World :=
  world (Some [formerCustomer])
        (fun n => match n with
                  | 0 | 1 => throttled
                  | _ => success grid
                  end).

Definition alwaysThrottled : World :=
  world (Some [formerCustomer]) (fun _ => throttled).

Definition alwaysMissing : World :=
  world (Some [formerCustomer]) (fun _ => missing).

Definition firstGarbled : World :=
  world (Some [formerCustomer])
        (fun n => match n with
                  | 0 => garbled
                  | _ => success grid
                  end).

Definition reachable : World :=
  world (Some [formerCustomer]) (fun _ => success grid).

(** The sheet can be read, but the local storage refuses every write. *)
Definition storageRefusing : World :=
  {| now := 5000; lastApiCall := 0; overlapping := fun _ last => last;
     stored := Some [formerCustomer];
     writable := false;
     exchanges := fun _ => success grid; fetchCalls := 0;
     putReplies := fun _ => answered 200 "{}"; putCalls := 0;
     today := day |}.

Definition parsed : list CustomerData :=
  parseSheetData parseDecimal parseDecimal day grid.

(** The record of the second data row, edited. *)
Definition satoEdited : CustomerData :=
  {| id := "C002"; name := "佐藤"; furigana := Some "さとう";
     petName := "タマ"; email := "sato@example.org"; phone := "";
     address := ""; petType := "猫"; breed := "";
     age := Finite (inject_Z 6); weight := Finite (inject_Z 4);
     imageUrl := None; notes := ""; createdAt := "2024-02-11";
     lastVisit := None; status := active |}.

(** A world whose cache is the last parsed sheet. *)
Definition synced : World :=
  world (Some parsed) (fun _ => success grid).

(** Two throttled attempts, then a body that is not JSON. *)
Definition thirdGarbled : World :=
  world (Some [formerCustomer])
        (fun n => match n with
                  | 0 | 1 => throttled
                  | _ => garbled
                  end).

(** The cache is the last parsed sheet; the remote write is refused. *)
Definition writeRefused : World :=
  {| now := 5000; lastApiCall := 0; overlapping := fun _ last => last;
     stored := Some parsed;
     writable := true;
     exchanges := fun _ => success grid; fetchCalls := 0;
     putReplies := fun _ => answered 403 "PERMISSION_DENIED"; putCalls := 0;
     today := day |}.

(** The cache is the last parsed sheet; the sheet cannot be read. *)
Definition offline : World :=
  world (Some parsed) (fun _ => missing).

(** The sheet holds one row, whose weight is not finite. *)
Definition unweighed : World :=
  world None (fun _ => success [header; yamada]).

(** Less than a second after the previous call was started, with
    another call under way that starts an attempt, and records it, at
    the moment this one wakes up. *)
Definition overlapped : World :=
  {| now := 5000; lastApiCall := 4700;
     overlapping := fun t _ => t; stored := Some [formerCustomer];
     writable := true;
     exchanges := fun _ => success grid; fetchCalls := 0;
     putReplies := fun _ => answered 200 "{}"; putCalls := 0;
     today := day |}.

End Sample.

Module PhotoSample.
Import PhotoService.

Definition pochi1 : PetPhoto :=
  {| id := "photo_1700000000000_a1b2c3d4e";
     customerId := "C001"; fileName := "pochi1.jpg";
     dataUrl := "data:image/jpeg;base64,AAAA"; fileSize := 204800;
     uploadedAt := "2023-11-14T22:13:20.000Z"; description := None |}.

Definition tama1 : PetPhoto :=
  {| id := "photo_1700000100000_f5g6h7i8j";
     customerId := "C002"; fileName := "tama1.jpg";
     dataUrl := "data:image/jpeg;base64,BBBB"; fileSize := 102400;
     uploadedAt := "2023-11-14T22:15:00.000Z";
     description := Some "first day" |}.

Definition pochi2 : PetPhoto :=
  {| id := "photo_1700000200000_k9l0m1n2o";
     customerId := "C001"; fileName := "pochi2.jpg";
     dataUrl := "data:image/jpeg;base64,CCCC"; fileSize := 307200;
     uploadedAt := "2023-11-14T22:16:40.000Z"; description := None |}.

Definition browser : World :=
  {| stored := Some [pochi1; tama1; pochi2]; writable := true;
     readAsDataURL := fun _ => Some "data:image/jpeg;base64,DDDD";
     clock := 1700000500000; randomSuffix := "k3j9x0q1z";
     isoTime := "2023-11-14T22:21:40.000Z" |}.

Definition snapshot : File := {| name := "pochi3.jpg"; size := 409600 |}.

End PhotoSample.

(* ================================================================== *)
(** * Properties *)
(* ================================================================== *)

(** ** Strings, numerals and indexed maps *)

Section JsFacts.
Import JS.

Lemma uint_of_zeros (k : nat) (s : string) (d : uint) :
  NilEmpty.uint_of_string s = Some d ->
  NilEmpty.uint_of_string (repeatChar "0" k ++ s) = Some (Nat.iter k D0 d).
Proof.
  intros Hs. induction k as [|k IH]; simpl.
  - exact Hs.
  - rewrite IH. reflexivity.
Qed.

Lemma of_uint_zeros (k : nat) (d : uint) :
  Nat.of_uint (Nat.iter k D0 d) = Nat.of_uint d.
Proof.
  induction k as [|k IH]; simpl.
  - reflexivity.
  - exact IH.
Qed.

Lemma padded_decimal_value (n : nat) :
  option_map Nat.of_uint
    (NilEmpty.uint_of_string (padStart 3 "0" (toString n))) = Some n.
Proof.
  unfold padStart, toString.
  rewrite (uint_of_zeros _ _ (Nat.to_uint n)) by apply NilEmpty.usu.
  simpl. rewrite of_uint_zeros, Unsigned.of_to. reflexivity.
Qed.

Lemma padded_decimal_inj (n m : nat) :
  padStart 3 "0" (toString n) = padStart 3 "0" (toString m) -> n = m.
Proof.
  intros E.
  pose proof (padded_decimal_value n) as Hn.
  rewrite E, padded_decimal_value in Hn.
  congruence.
Qed.

Lemma truthy_nonempty (s : string) : truthy s = true <-> s <> "".
Proof.
  destruct s; simpl; split; intros; congruence.
Qed.

(** A cell reads as non-empty exactly when the row holds a non-empty
    string at that position. *)
Lemma cell_nonempty (row : list string) (i : nat) :
  cell row i <> "" <-> exists s, nth_error row i = Some s /\ s <> "".
Proof.
  unfold cell. destruct (nth_error row i) as [s|].
  - destruct s as [|c s]; simpl; split.
    + intros H. now elim H.
    + intros (s' & [= <-] & H). now elim H.
    + intros _. eexists. split; [reflexivity|discriminate].
    + discriminate.
  - split; [intros H; now elim H|]. intros (s & H & _). discriminate.
Qed.

Lemma mapIndexFrom_length {A B : Type} (f : A -> nat -> B) (l : list A)
      (start : nat) :
  List.length (mapIndexFrom f start l) = List.length l.
Proof.
  revert start. induction l as [|x l IH]; intros start; simpl; [reflexivity|].
  now rewrite IH.
Qed.

Lemma mapIndexFrom_nth {A B : Type} (f : A -> nat -> B) (l : list A)
      (start k : nat) (x : A) :
  nth_error l k = Some x ->
  nth_error (mapIndexFrom f start l) k = Some (f x (start + k)).
Proof.
  revert start k.
  induction l as [|y l IH]; intros start [|k]; simpl; try discriminate.
  - intros [= ->]. now rewrite Nat.add_0_r.
  - intros H. rewrite (IH (S start) k H). f_equal. f_equal. lia.
Qed.

End JsFacts.

(** ** Row parsing *)

Section ParsingFacts.
Import JS GoogleSheetsService.

Variables parseInt parseFloat : string -> number.
Variable today : string.

Lemma hasNames_named (row : list string) (index : nat) :
  hasNames (customerOfRow parseInt parseFloat today row index) = true <->
  cell row 1 <> "" /\ cell row 6 <> "".
Proof.
  unfold hasNames. simpl.
  rewrite andb_true_iff, !truthy_nonempty. reflexivity.
Qed.

Lemma customerId_inj (i j : nat) : customerId i = customerId j -> i = j.
Proof.
  unfold customerId. intros E. simpl in E. injection E as E.
  apply padded_decimal_inj in E. lia.
Qed.

Lemma parse_unfold (values : list (list string)) :
  parseSheetData parseInt parseFloat today values =
  filter hasNames
    (mapIndex (customerOfRow parseInt parseFloat today) (tl values)).
Proof.
  unfold parseSheetData.
  destruct values as [|header [|row rows]]; reflexivity.
Qed.

Lemma filter_named_all (rows : list (list string)) (start : nat) :
  Forall (fun row => cell row 1 <> "" /\ cell row 6 <> "") rows ->
  filter hasNames
    (mapIndexFrom (customerOfRow parseInt parseFloat today) start rows) =
  mapIndexFrom (customerOfRow parseInt parseFloat today) start rows.
Proof.
  intros H. revert start.
  induction H as [|row rows Hrow _ IH]; intros start; simpl.
  - reflexivity.
  - apply (hasNames_named row start) in Hrow. rewrite Hrow, IH. reflexivity.
Qed.

Lemma ids_of_rows (rows : list (list string)) (start : nat) :
  map id
    (mapIndexFrom (customerOfRow parseInt parseFloat today) start rows) =
  map customerId (seq start (List.length rows)).
Proof.
  revert start. induction rows as [|row rows IH]; intros start; simpl.
  - reflexivity.
  - rewrite IH. reflexivity.
Qed.

Lemma in_mapIndexFrom (rows : list (list string)) (start : nat)
      (c : CustomerData) :
  In c (mapIndexFrom (customerOfRow parseInt parseFloat today) start rows) <->
  exists k row,
    nth_error rows k = Some row /\
    c = customerOfRow parseInt parseFloat today row (start + k).
Proof.
  revert start. induction rows as [|r rows IH]; intros start; simpl.
  - split; [intros [] | intros (k & row & H & _); destruct k; discriminate].
  - rewrite IH. split.
    + intros [<- | (k & row & H & ->)].
      * exists 0, r. rewrite Nat.add_0_r. auto.
      * exists (S k), row. split; [exact H|]. f_equal. lia.
    + intros ([|k] & row & H & ->); simpl in H.
      * left. injection H as <-. now rewrite Nat.add_0_r.
      * right. exists k, row. split; [exact H|]. f_equal. lia.
Qed.

Lemma NoDup_ids_filter (p : CustomerData -> bool) (l : list CustomerData) :
  NoDup (map id l) -> NoDup (map id (filter p l)).
Proof.
  induction l as [|c l IH]; simpl; intros H; [constructor|].
  inversion H as [|? ? Hnotin Hrest]; subst.
  destruct (p c); simpl; [|auto].
  constructor; [|auto].
  intros Hin. apply Hnotin.
  apply in_map_iff in Hin as (c' & E & Hc').
  apply filter_In in Hc' as [Hc' _].
  apply in_map_iff. eauto.
Qed.

(** C1. A grid made of a header row and N data rows that all carry a
    non-empty owner name and a non-empty pet name parses to exactly N
    records; the record of the k-th data row (k = 1..N) is the one built
    from that row, and its identifier is "C" followed by k written in
    decimal and left-padded with zeros to three digits. *)
Theorem parse_named_grid (header : list string) (rows : list (list string)) :
  Forall (fun row => cell row 1 <> "" /\ cell row 6 <> "") rows ->
  List.length (parseSheetData parseInt parseFloat today (header :: rows)) =
    List.length rows /\
  map id (parseSheetData parseInt parseFloat today (header :: rows)) =
    map (fun k => ("C" ++ padStart 3 "0" (toString k))%string)
        (seq 1 (List.length rows)) /\
  forall k row,
    nth_error rows k = Some row ->
    nth_error (parseSheetData parseInt parseFloat today (header :: rows)) k =
    Some (customerOfRow parseInt parseFloat today row k).
Proof.
  intros Hrows. rewrite parse_unfold. simpl tl. unfold mapIndex.
  rewrite filter_named_all by exact Hrows.
  split; [apply mapIndexFrom_length|]. split.
  - rewrite ids_of_rows, <- seq_shift, map_map.
    apply map_ext. intros k. unfold customerId.
    now rewrite Nat.add_1_r.
  - intros k row H.
    apply (mapIndexFrom_nth (customerOfRow parseInt parseFloat today)
                            rows 0 k row H).
Qed.

(** C2, as the code has it. A record is in the parsed result exactly
    when it is the record built from some data row (any row after the
    first) whose owner-name cell and pet-name cell are both non-empty
    strings as they stand: no cell is trimmed. *)
Theorem parse_keeps_named_rows (values : list (list string))
        (c : CustomerData) :
  In c (parseSheetData parseInt parseFloat today values) <->
  exists k row,
    nth_error (tl values) k = Some row /\
    c = customerOfRow parseInt parseFloat today row k /\
    cell row 1 <> "" /\ cell row 6 <> "".
Proof.
  rewrite parse_unfold, filter_In. unfold mapIndex.
  rewrite in_mapIndexFrom. split.
  - intros ((k & row & H & ->) & Hn). simpl in Hn.
    apply hasNames_named in Hn. exists k, row. tauto.
  - intros (k & row & H & -> & Hn). split.
    + exists k, row. auto.
    + apply hasNames_named. exact Hn.
Qed.

(** C9. Whatever the grid, no two records of the parsed result share
    an identifier. *)
Theorem parsed_ids_distinct (values : list (list string)) :
  NoDup (map id (parseSheetData parseInt parseFloat today values)).
Proof.
  rewrite parse_unfold. apply NoDup_ids_filter.
  unfold mapIndex. rewrite ids_of_rows.
  apply NoDup_map_NoDup_ForallPairs; [|apply seq_NoDup].
  intros i j _ _. apply customerId_inj.
Qed.

End ParsingFacts.

Section ParsingExamples.
Import JS GoogleSheetsService Sample.

Lemma parse_named_grid_witness :
  Forall (fun row => cell row 1 <> "" /\ cell row 6 <> "") [tanaka; sato] /\
  List.length (parseSheetData parseDecimal parseDecimal day grid) = 2 /\
  map id (parseSheetData parseDecimal parseDecimal day grid) =
    ["C001"; "C002"].
Proof.
  assert (H : Forall (fun row => cell row 1 <> "" /\ cell row 6 <> "")
                     [tanaka; sato]).
  { repeat constructor; discriminate. }
  destruct (parse_named_grid parseDecimal parseDecimal day header
                             [tanaka; sato] H) as (Hlen & Hids & _).
  split; [exact H|]. split; [exact Hlen|exact Hids].
Defined.

(** C2 as stated fails: a data row whose owner name is one space (empty
    once trimmed) is not dropped; it comes out as record C001. *)
Lemma whitespace_owner_kept :
  trim (cell blankOwner 1) = "" /\
  hasNames (customerOfRow parseDecimal parseDecimal day blankOwner 0) = true /\
  map id (parseSheetData parseDecimal parseDecimal day [header; blankOwner])
    = ["C001"].
Proof. repeat split. Qed.

End ParsingExamples.

(** ** Lists of events *)

Section ListFacts.
Context {A : Type}.

Lemma split_quiet (quiet tail pre post : list A) (x : A) :
  ~ In x quiet ->
  quiet ++ tail = pre ++ x :: post ->
  exists pre', pre = quiet ++ pre' /\ tail = pre' ++ x :: post.
Proof.
  revert pre. induction quiet as [|q quiet IH]; intros pre Hx E.
  - exists pre. auto.
  - destruct pre as [|p pre]; simpl in E; injection E as -> E.
    + exfalso. apply Hx. now left.
    + destruct (IH pre) as (pre' & -> & Ht); [|exact E|].
      * intros Hin. apply Hx. now right.
      * exists pre'. auto.
Qed.

Lemma in_middle (pre post : list A) (x : A) : In x (pre ++ x :: post).
Proof. apply in_or_app. right. now left. Qed.

End ListFacts.

(** ** Arrays searched and assigned by index *)

Section IndexFacts.
Import JS.
Context {A : Type}.

Lemma findIndex_some (p : A -> bool) (l : list A) (j : nat) :
  findIndex p l = Some j ->
  (exists x, nth_error l j = Some x /\ p x = true) /\
  forall i y, i < j -> nth_error l i = Some y -> p y = false.
Proof.
  revert j. induction l as [|x l IH]; intros j; simpl; [discriminate|].
  destruct (p x) eqn:Hp.
  - intros [= <-]. split; [exists x; auto|]. intros i y Hi. lia.
  - destruct (findIndex p l) as [k|]; [|discriminate].
    intros [= <-]. destruct (IH k eq_refl) as (Hx & Hbefore).
    split; [exact Hx|].
    intros [|i] y Hi; simpl.
    + intros [= <-]. exact Hp.
    + apply Hbefore. lia.
Qed.

Lemma findIndex_none (p : A -> bool) (l : list A) :
  findIndex p l = None <-> forall x, In x l -> p x = false.
Proof.
  induction l as [|x l IH]; simpl.
  - split; [intros _ y []|reflexivity].
  - destruct (p x) eqn:Hp.
    + split; [discriminate|]. intros H.
      rewrite (H x (or_introl eq_refl)) in Hp. discriminate.
    + destruct (findIndex p l) as [k|].
      * split; [discriminate|]. intros H.
        assert (Hk : Some k = None); [|discriminate].
        apply IH. intros y Hy. apply H. now right.
      * split; [|reflexivity]. intros _ y [<-|Hy]; [exact Hp|].
        now apply IH.
Qed.

Lemma find_assignAt (p : A -> bool) (l : list A) (j : nat) (c : A) :
  findIndex p l = Some j ->
  p c = true ->
  find p (assignAt j c l) = Some c.
Proof.
  revert j. induction l as [|x l IH]; intros j; simpl; [discriminate|].
  destruct (p x) eqn:Hp.
  - intros [= <-] Hc. simpl. now rewrite Hc.
  - destruct (findIndex p l) as [k|]; [|discriminate].
    intros [= <-] Hc. simpl. rewrite Hp. now apply IH.
Qed.

Lemma nth_assignAt_other (l : list A) (j i : nat) (c : A) :
  i <> j -> nth_error (assignAt j c l) i = nth_error l i.
Proof.
  revert j i. induction l as [|x l IH]; intros j i Hne.
  - destruct j; reflexivity.
  - destruct j as [|j], i as [|i]; simpl; try reflexivity.
    + now elim Hne.
    + apply IH. lia.
Qed.

Lemma map_assignAt {B : Type} (f : A -> B) (l : list A) (j : nat) (c x : A) :
  nth_error l j = Some x -> f x = f c ->
  map f (assignAt j c l) = map f l.
Proof.
  revert j. induction l as [|y l IH]; intros j; [destruct j; discriminate|].
  destruct j as [|j]; simpl.
  - intros [= ->] E. now rewrite E.
  - intros H E. now rewrite (IH j H E).
Qed.

Lemma findIndex_assignAt (p : A -> bool) (l : list A) (j : nat) (c : A) :
  findIndex p l = Some j ->
  p c = true ->
  findIndex p (assignAt j c l) = Some j.
Proof.
  revert j. induction l as [|x l IH]; intros j; simpl; [discriminate|].
  destruct (p x) eqn:Hp.
  - intros [= <-] Hc. simpl. now rewrite Hc.
  - destruct (findIndex p l) as [k|]; [|discriminate].
    intros [= <-] Hc. simpl. rewrite Hp. now rewrite (IH k eq_refl Hc).
Qed.

Lemma findIndex_map (p : A -> bool) (f : A -> A) (l : list A) :
  (forall x, p (f x) = p x) ->
  findIndex p (map f l) = findIndex p l.
Proof.
  intros Hp. induction l as [|x l IH]; simpl; [reflexivity|].
  now rewrite Hp, IH.
Qed.

Lemma map_assignAt_commute (f : A -> A) (l : list A) (j : nat) (c : A) :
  map f (assignAt j c l) = assignAt j (f c) (map f l).
Proof.
  revert j. induction l as [|x l IH]; intros j; [destruct j; reflexivity|].
  destruct j as [|j]; simpl; [reflexivity|]. now rewrite IH.
Qed.

Lemma map_fixed (f : A -> A) (l : list A) :
  Forall (fun x => f x = x) l -> map f l = l.
Proof.
  induction 1 as [|x l Hx _ IH]; simpl; [reflexivity|]. now rewrite Hx, IH.
Qed.

Lemma Forall_filter (P : A -> Prop) (q : A -> bool) (l : list A) :
  Forall P l -> Forall P (filter q l).
Proof.
  rewrite !Forall_forall. intros H x Hx. apply filter_In in Hx as (Hx & _).
  now apply H.
Qed.

End IndexFacts.

(** ** What the cache keeps of a record *)

Section JsonFacts.
Import JS GoogleSheetsService.

Lemma jsonNumber_idem (n : number) : jsonNumber (jsonNumber n) = jsonNumber n.
Proof. destruct n; reflexivity. Qed.

Lemma jsonCustomer_idem (c : CustomerData) :
  jsonCustomer (jsonCustomer c) = jsonCustomer c.
Proof.
  unfold jsonCustomer. cbn [id name furigana petName email phone address
    petType breed age weight imageUrl notes createdAt lastVisit status].
  now rewrite !jsonNumber_idem.
Qed.

Lemma jsonRoundTrip_idem (l : list CustomerData) :
  jsonRoundTrip (jsonRoundTrip l) = jsonRoundTrip l.
Proof.
  unfold jsonRoundTrip. rewrite map_map. apply map_ext.
  exact jsonCustomer_idem.
Qed.

Lemma jsonNumber_finite (n : number) : isFinite n = true -> jsonNumber n = n.
Proof. destruct n; simpl; congruence. Qed.

Lemma jsonCustomer_finite (c : CustomerData) :
  finiteNumbers c = true -> jsonCustomer c = c.
Proof.
  unfold finiteNumbers. rewrite andb_true_iff. intros (Ha & Hw).
  destruct c. unfold jsonCustomer. cbn in *.
  now rewrite (jsonNumber_finite _ Ha), (jsonNumber_finite _ Hw).
Qed.

Lemma jsonRoundTrip_finite (l : list CustomerData) :
  forallb finiteNumbers l = true -> jsonRoundTrip l = l.
Proof.
  induction l as [|c l IH]; simpl; [reflexivity|].
  rewrite andb_true_iff. intros (Hc & Hl).
  now rewrite (jsonCustomer_finite c Hc), (IH Hl).
Qed.

Lemma jsonRoundTrip_fixed (l : list CustomerData) :
  Forall (fun c => jsonCustomer c = c) (jsonRoundTrip l).
Proof.
  unfold jsonRoundTrip. apply Forall_forall. intros c Hc.
  apply in_map_iff in Hc as (x & <- & _). apply jsonCustomer_idem.
Qed.

(** What is read from the cache has been through JSON already. *)
Lemma localCustomers_fixed (w : World) :
  Forall (fun c => jsonCustomer c = c) (localCustomers w).
Proof.
  unfold localCustomers. destruct (stored w) as [l|];
    [apply jsonRoundTrip_fixed|constructor].
Qed.

Lemma localCustomers_json (w : World) :
  jsonRoundTrip (localCustomers w) = localCustomers w.
Proof. apply map_fixed, localCustomers_fixed. Qed.

Lemma localCustomers_saved (l : list CustomerData) (w : World) :
  localCustomers (withStored (Some (jsonRoundTrip l)) w) = jsonRoundTrip l.
Proof.
  unfold localCustomers. cbn [stored withStored]. apply jsonRoundTrip_idem.
Qed.

Lemma findIndex_json (c : CustomerData) (l : list CustomerData) :
  findIndex (sameId c) (jsonRoundTrip l) = findIndex (sameId c) l.
Proof. apply findIndex_map. reflexivity. Qed.

End JsonFacts.

(** ** The retry loop *)

(** Closes one branch of the case analysis on the remote answers. *)
Ltac fetch_case :=
  repeat split;
  [ repeat constructor
  | let data := fresh "data" in
    let Hin := fresh "Hin" in
    intros data Hin; simpl in Hin;
    repeat (destruct Hin as [Hin|Hin]; try discriminate Hin);
    try contradiction; try (now injection Hin as <-)
  | eauto ].

Section ServiceFacts.
Import JS GoogleSheetsService.

Variables parseInt parseFloat : string -> number.
Variable cfg : Config.

(** Whatever the remote side answers, one call of the fetcher consumes
    one exchange, emits only requests and at most one parsed-data line,
    starts with the request for the spreadsheet information, and logs
    parsed data only when it returns them. *)
Lemma fetch_run (w : World) :
  let r := fetchFromGoogleSheets parseInt parseFloat cfg w in
  final r = withFetchCalls (S (fetchCalls w)) w /\
  Forall (fun ev => remoteEvent ev = true) (events r) /\
  (forall data, In (LogParsed data) (events r) -> outcome r = Returned data) /\
  exists rest,
    events r =
    Sent (GetSpreadsheet (trim (spreadsheetId cfg)) (apiKey cfg)) :: rest.
Proof.
  unfold fetchFromGoogleSheets, bind, ask, update, fetch, jsonOf, emit,
    throw, ret, bind.
  simpl.
  destruct (infoReply (exchanges w (fetchCalls w))) as [e1|r1]; simpl;
    [fetch_case|].
  destruct (Http.ok r1); simpl; [|fetch_case].
  destruct (Http.json r1) as [e2|v1]; simpl; [fetch_case|].
  destruct (valuesReply (exchanges w (fetchCalls w))) as [e3|r2]; simpl;
    [fetch_case|].
  destruct (Http.ok r2); simpl; [|fetch_case].
  destruct (Http.json r2) as [e4|v2]; simpl; fetch_case.
Qed.

(** The fetcher returns nothing but what it has logged as parsed. *)
Lemma fetch_returned (w : World) (data : list CustomerData) :
  let r := fetchFromGoogleSheets parseInt parseFloat cfg w in
  outcome r = Returned data -> In (LogParsed data) (events r).
Proof.
  unfold fetchFromGoogleSheets, bind, ask, update, fetch, jsonOf, emit,
    throw, ret, bind.
  simpl.
  destruct (infoReply (exchanges w (fetchCalls w))) as [e1|r1]; simpl;
    [discriminate|].
  destruct (Http.ok r1); simpl; [|discriminate].
  destruct (Http.json r1) as [e2|v1]; simpl; [discriminate|].
  destruct (valuesReply (exchanges w (fetchCalls w))) as [e3|r2]; simpl;
    [discriminate|].
  destruct (Http.ok r2); simpl; [|discriminate].
  destruct (Http.json r2) as [e4|v2]; simpl; [discriminate|].
  intros [= <-]. auto 10.
Qed.

(** One turn of the loop, spelled out. *)
Lemma attemptLoop_step (remaining attempt : nat) (w : World) :
  let r := fetchFromGoogleSheets parseInt parseFloat cfg
             (withLastApiCall (now w) w) in
  attemptLoop parseInt parseFloat cfg (S remaining) attempt w =
  match outcome r with
  | Returned data =>
      mkRun (Returned data) (final r) (LogAttempt attempt :: events r)
  | Thrown e =>
      if isRateLimit e then
        let d := backoffDelay attempt in
        let r' := attemptLoop parseInt parseFloat cfg remaining (S attempt)
                    (wakeUp d (final r)) in
        mkRun (outcome r') (final r')
              (LogAttempt attempt :: events r ++
               LogAttemptFailed attempt e :: LogRetryWait d :: Slept d ::
               events r')
      else if (attempt =? MAX_RETRIES)%nat then
        mkRun (Returned (localCustomers (final r))) (final r)
              (LogAttempt attempt :: events r ++
               [LogAttemptFailed attempt e])
      else
        mkRun (Thrown e) (final r)
              (LogAttempt attempt :: events r ++
               [LogAttemptFailed attempt e])
  end.
Proof.
  cbn [attemptLoop]. cbv zeta.
  generalize (attemptLoop parseInt parseFloat cfg remaining (S attempt))
    as next.
  generalize (fetchFromGoogleSheets parseInt parseFloat cfg) as f.
  intros f next.
  unfold tryCatch, bind, emit, ask, update, sleep, getLocalCustomers,
    throw, ret, localCustomers; simpl.
  destruct (outcome (f (withLastApiCall (now w) w))) as [data|e] eqn:Ho;
    simpl; rewrite ?Ho; simpl; [reflexivity|].
  destruct (isRateLimit e); simpl.
  - reflexivity.
  - destruct (attempt =? MAX_RETRIES)%nat; simpl.
    + destruct (stored (final (f (withLastApiCall (now w) w)))) as [l|]; simpl.
      * destruct l; reflexivity.
      * reflexivity.
    + reflexivity.
Qed.

Lemma attemptsMade_app (l1 l2 : list Event) :
  attemptsMade (l1 ++ l2) = attemptsMade l1 + attemptsMade l2.
Proof. unfold attemptsMade. now rewrite filter_app, length_app. Qed.

Lemma attemptsMade_remote (l : list Event) :
  Forall (fun ev => remoteEvent ev = true) l -> attemptsMade l = 0.
Proof.
  unfold attemptsMade.
  induction 1 as [|ev l Hev _ IH]; simpl; [reflexivity|].
  destruct ev; simpl in *; try discriminate; exact IH.
Qed.

Lemma remote_not_failure (l : list Event) (a : nat) (e : Error) :
  Forall (fun ev => remoteEvent ev = true) l ->
  ~ In (LogAttemptFailed a e) l.
Proof.
  intros H Hin. rewrite Forall_forall in H. apply H in Hin. discriminate.
Qed.

(** The schedule of the loop from any turn on. *)
Lemma attemptLoop_paced (remaining attempt : nat) (w : World) :
  attempt + remaining = S MAX_RETRIES ->
  let evs := events (attemptLoop parseInt parseFloat cfg remaining attempt w) in
  attemptsMade evs <= remaining /\
  (remaining <> 0 -> exists rest, evs = LogAttempt attempt :: rest) /\
  forall pre a e post,
    evs = pre ++ LogAttemptFailed a e :: post ->
    attempt <= a <= MAX_RETRIES /\
    (isRateLimit e = true ->
     exists rest,
       post = LogRetryWait (backoffDelay a) :: Slept (backoffDelay a) :: rest /\
       (a < MAX_RETRIES -> exists rest', rest = LogAttempt (S a) :: rest')) /\
    (isRateLimit e = false -> post = []).
Proof.
  revert attempt w.
  induction remaining as [|remaining IH]; intros attempt w Hsum evs.
  - subst evs. unfold attemptsMade. simpl. split; [lia|]. split; [congruence|].
    intros [|? ?] a e' post E; discriminate.
  - subst evs. rewrite attemptLoop_step. cbv zeta.
    destruct (fetch_run (withLastApiCall (now w) w)) as (_ & Hq & _ & _).
    set (r := fetchFromGoogleSheets parseInt parseFloat cfg
                (withLastApiCall (now w) w)) in *.
    clearbody r.
    destruct (outcome r) as [data|e0].
    + simpl events. split; [|split].
      * change (LogAttempt attempt :: events r)
          with ([LogAttempt attempt] ++ events r).
        rewrite attemptsMade_app, (attemptsMade_remote _ Hq).
        unfold attemptsMade. simpl. lia.
      * eauto.
      * intros pre a e post E. exfalso.
        pose proof (in_middle pre post (LogAttemptFailed a e)) as Hin.
        rewrite <- E in Hin. destruct Hin as [Hin|Hin]; [discriminate|].
        exact (remote_not_failure _ _ _ Hq Hin).
    + destruct (isRateLimit e0) eqn:Hrl.
      * cbv zeta. simpl events.
        set (w' := wakeUp _ _).
        destruct (IH (S attempt) w') as (Hn & Hhd & Hp); [lia|].
        set (evs' := events (attemptLoop parseInt parseFloat cfg remaining
                               (S attempt) w')) in *.
        split; [|split].
        -- change (LogAttempt attempt :: events r ++
                   LogAttemptFailed attempt e0 ::
                   LogRetryWait (backoffDelay attempt) ::
                   Slept (backoffDelay attempt) :: evs')
             with ([LogAttempt attempt] ++ events r ++
                   [LogAttemptFailed attempt e0;
                    LogRetryWait (backoffDelay attempt);
                    Slept (backoffDelay attempt)] ++ evs').
           rewrite !attemptsMade_app, (attemptsMade_remote _ Hq).
           unfold attemptsMade at 1 2. simpl. lia.
        -- eauto.
        -- intros pre a e post E.
           change (LogAttempt attempt :: events r ++
                   LogAttemptFailed attempt e0 ::
                   LogRetryWait (backoffDelay attempt) ::
                   Slept (backoffDelay attempt) :: evs')
             with ((LogAttempt attempt :: events r) ++
                   LogAttemptFailed attempt e0 ::
                   LogRetryWait (backoffDelay attempt) ::
                   Slept (backoffDelay attempt) :: evs') in E.
           apply split_quiet in E as (pre' & -> & E).
           2:{ intros [Hin|Hin]; [discriminate|].
               exact (remote_not_failure _ _ _ Hq Hin). }
           destruct pre' as [|p1 pre']; simpl in E.
           { injection E as <- <- <-.
             split; [unfold MAX_RETRIES in *; lia|]. split.
             - intros _. eexists. split; [reflexivity|].
               intros Ha. apply Hhd. unfold MAX_RETRIES in *. lia.
             - congruence. }
           injection E as _ E.
           destruct pre' as [|p2 pre']; simpl in E; [discriminate|].
           injection E as _ E.
           destruct pre' as [|p3 pre']; simpl in E; [discriminate|].
           injection E as _ E.
           destruct (Hp _ _ _ _ E) as (Hrange & Hrest).
           split; [lia|exact Hrest].
      * assert (Hev : exists o fw,
                   (if (attempt =? MAX_RETRIES)%nat
                    then mkRun (Returned (localCustomers (final r))) (final r)
                           (LogAttempt attempt :: events r ++
                            [LogAttemptFailed attempt e0])
                    else mkRun (Thrown e0) (final r)
                           (LogAttempt attempt :: events r ++
                            [LogAttemptFailed attempt e0])) =
                   mkRun o fw (LogAttempt attempt :: events r ++
                               [LogAttemptFailed attempt e0])).
        { destruct (attempt =? MAX_RETRIES)%nat; eauto. }
        destruct Hev as (o & fw & ->). simpl events.
        split; [|split].
        -- change (LogAttempt attempt :: events r ++
                   [LogAttemptFailed attempt e0])
             with ([LogAttempt attempt] ++ events r ++
                   [LogAttemptFailed attempt e0]).
           rewrite !attemptsMade_app, (attemptsMade_remote _ Hq).
           unfold attemptsMade. simpl. lia.
        -- eauto.
        -- intros pre a e post E.
           change (LogAttempt attempt :: events r ++
                   [LogAttemptFailed attempt e0])
             with ((LogAttempt attempt :: events r) ++
                   [LogAttemptFailed attempt e0]) in E.
           apply split_quiet in E as (pre' & -> & E).
           2:{ intros [Hin|Hin]; [discriminate|].
               exact (remote_not_failure _ _ _ Hq Hin). }
           destruct pre' as [|p1 pre']; simpl in E.
           { injection E as <- <- <-.
             split; [unfold MAX_RETRIES in *; lia|]. split; congruence. }
           injection E as _ E. destruct pre'; discriminate.
Qed.

(** What the log of the loop tells about its result. *)
Lemma attemptLoop_outcome (remaining attempt : nat) (w : World) :
  attempt + remaining = S MAX_RETRIES ->
  let run := attemptLoop parseInt parseFloat cfg remaining attempt w in
  (stored (final run) = stored w /\ writable (final run) = writable w) /\
  (forall data, In (LogParsed data) (events run) ->
                outcome run = Returned data) /\
  (forall a e, In (LogAttemptFailed a e) (events run) ->
               attempt <= a <= MAX_RETRIES) /\
  (forall a e, In (LogAttemptFailed a e) (events run) ->
               isRateLimit e = false -> a <> MAX_RETRIES ->
               outcome run = Thrown e /\
               attemptsMade (events run) = S (a - attempt)) /\
  (forall e, In (LogAttemptFailed MAX_RETRIES e) (events run) ->
             isRateLimit e = true ->
             outcome run = Thrown exhausted /\
             attemptsMade (events run) = remaining).
Proof.
  revert attempt w.
  induction remaining as [|remaining IH]; intros attempt w Hsum run.
  - subst run. simpl. repeat split; try tauto; intros; contradiction.
  - subst run. rewrite attemptLoop_step. cbv zeta.
    destruct (fetch_run (withLastApiCall (now w) w)) as (Hf & Hq & Hp & _).
    set (r := fetchFromGoogleSheets parseInt parseFloat cfg
                (withLastApiCall (now w) w)) in *.
    clearbody r.
    assert (Hnf : forall a e, ~ In (LogAttemptFailed a e) (events r))
      by (intros a e; exact (remote_not_failure _ a e Hq)).
    assert (Hst : stored (final r) = stored w /\
                  writable (final r) = writable w)
      by (rewrite Hf; split; reflexivity).
    destruct (outcome r) as [data0|e0] eqn:Ho.
    + simpl.
      assert (Hno : forall a e,
                 ~ In (LogAttemptFailed a e) (LogAttempt attempt :: events r)).
      { intros a e [H|H]; [discriminate|now apply Hnf in H]. }
      split; [exact Hst|]. split; [|split; [|split]].
      * intros data [H|H]; [discriminate|].
        apply Hp in H. congruence.
      * intros a e H. now apply Hno in H.
      * intros a e H. now apply Hno in H.
      * intros e H. now apply Hno in H.
    + assert (Hnp : forall data, ~ In (LogParsed data) (events r))
        by (intros data H; apply Hp in H; congruence).
      destruct (isRateLimit e0) eqn:Hrl.
      * cbv zeta. simpl outcome. simpl final. simpl events.
        set (w' := wakeUp _ _).
        assert (Hst' : stored w' = stored w /\ writable w' = writable w)
          by (subst w'; exact Hst).
        destruct (IH (S attempt) w') as (Hfr & Hpar & Hrg & Hnr & Hex);
          [lia|].
        set (run' := attemptLoop parseInt parseFloat cfg remaining
                       (S attempt) w') in *.
        assert (Hcount : attemptsMade
                  (LogAttempt attempt :: events r ++
                   LogAttemptFailed attempt e0 ::
                   LogRetryWait (backoffDelay attempt) ::
                   Slept (backoffDelay attempt) :: events run') =
                  S (attemptsMade (events run'))).
        { change (LogAttempt attempt :: events r ++
                  LogAttemptFailed attempt e0 ::
                  LogRetryWait (backoffDelay attempt) ::
                  Slept (backoffDelay attempt) :: events run')
            with ([LogAttempt attempt] ++ events r ++
                  [LogAttemptFailed attempt e0;
                   LogRetryWait (backoffDelay attempt);
                   Slept (backoffDelay attempt)] ++ events run').
          rewrite !attemptsMade_app, (attemptsMade_remote _ Hq).
          unfold attemptsMade at 1 2. simpl. lia. }
        assert (Hin : forall x,
                   In x (LogAttempt attempt :: events r ++
                         LogAttemptFailed attempt e0 ::
                         LogRetryWait (backoffDelay attempt) ::
                         Slept (backoffDelay attempt) :: events run') ->
                   x = LogAttempt attempt \/ In x (events r) \/
                   x = LogAttemptFailed attempt e0 \/
                   x = LogRetryWait (backoffDelay attempt) \/
                   x = Slept (backoffDelay attempt) \/ In x (events run')).
        { intros x [H|H]; [auto|]. apply in_app_or in H as [H|H]; [auto|].
          destruct H as [H|[H|[H|H]]]; auto 10. }
        split; [destruct Hfr; destruct Hst'; split; congruence|].
        split; [|split; [|split]].
        -- intros data H. apply Hin in H.
           destruct H as [H|[H|[H|[H|[H|H]]]]]; try discriminate.
           ++ now apply Hnp in H.
           ++ now apply Hpar.
        -- intros a e H. apply Hin in H.
           destruct H as [H|[H|[H|[H|[H|H]]]]]; try discriminate.
           ++ now apply Hnf in H.
           ++ injection H as <- <-. unfold MAX_RETRIES in *. lia.
           ++ apply Hrg in H. lia.
        -- intros a e H He Ha. apply Hin in H.
           destruct H as [H|[H|[H|[H|[H|H]]]]]; try discriminate.
           ++ now apply Hnf in H.
           ++ injection H as <- <-. congruence.
           ++ pose proof (Hrg _ _ H) as Hr.
              destruct (Hnr _ _ H He Ha) as (-> & Hc).
              split; [reflexivity|]. rewrite Hcount, Hc. lia.
        -- intros e H He. apply Hin in H.
           destruct H as [H|[H|[H|[H|[H|H]]]]]; try discriminate.
           ++ now apply Hnf in H.
           ++ injection H as <- <-.
              (* the third turn: nothing remains *)
              assert (remaining = 0) by (unfold MAX_RETRIES in *; lia).
              subst remaining. subst run'.
              split; [reflexivity|]. rewrite Hcount. reflexivity.
           ++ destruct (Hex _ H He) as (-> & Hc).
              split; [reflexivity|]. rewrite Hcount, Hc. reflexivity.
      * assert (Hcount : attemptsMade
                  (LogAttempt attempt :: events r ++
                   [LogAttemptFailed attempt e0]) = 1).
        { change (LogAttempt attempt :: events r ++
                  [LogAttemptFailed attempt e0])
            with ([LogAttempt attempt] ++ events r ++
                  [LogAttemptFailed attempt e0]).
          rewrite !attemptsMade_app, (attemptsMade_remote _ Hq).
          unfold attemptsMade. simpl. lia. }
        assert (Hin : forall x,
                   In x (LogAttempt attempt :: events r ++
                         [LogAttemptFailed attempt e0]) ->
                   x = LogAttempt attempt \/ In x (events r) \/
                   x = LogAttemptFailed attempt e0).
        { intros x [H|H]; [auto|]. apply in_app_or in H as [H|H]; [auto|].
          destruct H as [H|[]]; auto. }
        destruct (attempt =? MAX_RETRIES)%nat eqn:Hlast;
          simpl outcome; simpl final; simpl events;
          (split; [exact Hst|]); (split; [|split; [|split]]).
        all: try (intros data H; apply Hin in H;
                  destruct H as [H|[H|H]]; try discriminate;
                  now apply Hnp in H).
        all: try (intros a e H; apply Hin in H;
                  destruct H as [H|[H|H]]; try discriminate;
                  [now apply Hnf in H|];
                  injection H as <- <-; unfold MAX_RETRIES in *; lia).
        all: try (intros e H He; apply Hin in H;
                  destruct H as [H|[H|H]]; try discriminate;
                  [now apply Hnf in H|];
                  injection H as _ <-; congruence).
        -- intros a e H He Ha. apply Hin in H.
           destruct H as [H|[H|H]]; try discriminate.
           ++ now apply Hnf in H.
           ++ injection H as <- <-. apply Nat.eqb_eq in Hlast. congruence.
        -- intros a e H He Ha. apply Hin in H.
           destruct H as [H|[H|H]]; try discriminate.
           ++ now apply Hnf in H.
           ++ injection H as <- <-. split; [reflexivity|].
              rewrite Hcount. f_equal. lia.
Qed.

(** A sequence the loop returns is one it has just parsed, or else what
    the cache holds. *)
Lemma attemptLoop_source (remaining attempt : nat) (w : World)
      (l : list CustomerData) :
  let run := attemptLoop parseInt parseFloat cfg remaining attempt w in
  outcome run = Returned l ->
  In (LogParsed l) (events run) \/ l = localCustomers w.
Proof.
  revert attempt w.
  induction remaining as [|remaining IH]; intros attempt w run; subst run.
  - discriminate.
  - rewrite attemptLoop_step. cbv zeta.
    destruct (fetch_run (withLastApiCall (now w) w)) as (Hf & _).
    pose proof (fetch_returned (withLastApiCall (now w) w)) as Hret.
    cbv zeta in Hf, Hret.
    set (r := fetchFromGoogleSheets parseInt parseFloat cfg
                (withLastApiCall (now w) w)) in *.
    clearbody r.
    assert (Hst : localCustomers (final r) = localCustomers w)
      by (rewrite Hf; reflexivity).
    destruct (outcome r) as [data0|e0] eqn:Ho.
    + cbn [outcome events]. intros [= <-]. left. right. now apply Hret.
    + destruct (isRateLimit e0).
      * cbv zeta. cbn [outcome events]. intros Hl.
        destruct (IH (S attempt) (wakeUp (backoffDelay attempt) (final r)) Hl)
          as [Hin|E].
        -- left. right. apply in_or_app. right.
           right. right. right. exact Hin.
        -- right. subst l. exact Hst.
      * destruct (attempt =? MAX_RETRIES)%nat; cbn [outcome events];
          [|discriminate].
        intros [= <-]. right. exact Hst.
Qed.

(** The throttle in front of the loop. *)
Lemma retry_unfold (w : World) :
  exists (throttle : list Event) (w' : World),
    (throttle = [] \/ exists ms, throttle = [Slept ms]) /\
    stored w' = stored w /\ writable w' = writable w /\
    let r := attemptLoop parseInt parseFloat cfg MAX_RETRIES 1 w' in
    fetchFromGoogleSheetsWithRetry parseInt parseFloat cfg w =
    mkRun (outcome r) (final r) (throttle ++ events r).
Proof.
  unfold fetchFromGoogleSheetsWithRetry.
  generalize (attemptLoop parseInt parseFloat cfg MAX_RETRIES 1) as loop.
  intros loop. unfold bind, ask, sleep, bind, emit, update, ret. simpl.
  destruct (now w - lastApiCall w <? MIN_API_INTERVAL)%Z; simpl.
  - eexists [Slept _], _. split; [right; eauto|].
    split; [|split]; [| |reflexivity]; reflexivity.
  - exists [], w. split; [left; reflexivity|].
    split; [|split]; reflexivity.
Qed.

Lemma in_throttled (throttle evs : list Event) (x : Event) :
  (throttle = [] \/ exists ms, throttle = [Slept ms]) ->
  In x (throttle ++ evs) ->
  (forall ms, x <> Slept ms) ->
  In x evs.
Proof.
  intros [->|(ms & ->)] Hin Hx; simpl in Hin; [exact Hin|].
  destruct Hin as [<-|Hin]; [now elim (Hx ms)|exact Hin].
Qed.

Lemma attemptsMade_throttled (throttle evs : list Event) :
  (throttle = [] \/ exists ms, throttle = [Slept ms]) ->
  attemptsMade (throttle ++ evs) = attemptsMade evs.
Proof. intros [->|(ms & ->)]; reflexivity. Qed.

(** What the log of a whole cycle tells about its result. *)
Lemma retry_outcome (w : World) :
  let run := fetchFromGoogleSheetsWithRetry parseInt parseFloat cfg w in
  (stored (final run) = stored w /\ writable (final run) = writable w) /\
  (forall data, In (LogParsed data) (events run) ->
                outcome run = Returned data) /\
  (forall a e, In (LogAttemptFailed a e) (events run) ->
               isRateLimit e = false -> a <> MAX_RETRIES ->
               outcome run = Thrown e /\ attemptsMade (events run) = a) /\
  (forall e, In (LogAttemptFailed MAX_RETRIES e) (events run) ->
             isRateLimit e = true ->
             outcome run = Thrown exhausted /\
             attemptsMade (events run) = MAX_RETRIES).
Proof.
  destruct (retry_unfold w) as (throttle & w' & Ht & Hs & Hw & E).
  cbv zeta in E. cbv zeta. rewrite E. clear E.
  pose proof (attemptLoop_outcome MAX_RETRIES 1 w' eq_refl) as H.
  cbv zeta in H. destruct H as ((Hs' & Hw') & Hpar & Hrg & Hnr & Hex).
  cbn [outcome final events].
  rewrite (attemptsMade_throttled _ _ Ht).
  split; [split; congruence|]. split; [|split].
  - intros data H. apply Hpar.
    apply (in_throttled _ _ _ Ht H). discriminate.
  - intros a e H He Ha.
    assert (Hin : In (LogAttemptFailed a e)
              (events (attemptLoop parseInt parseFloat cfg MAX_RETRIES 1 w')))
      by (apply (in_throttled _ _ _ Ht H); discriminate).
    destruct (Hnr a e Hin He Ha) as (Ho & Hc).
    pose proof (Hrg a e Hin). split; [exact Ho|]. rewrite Hc. lia.
  - intros e H He. apply (Hex e); [|exact He].
    apply (in_throttled _ _ _ Ht H). discriminate.
Qed.

Lemma retry_source (w : World) (l : list CustomerData) :
  let run := fetchFromGoogleSheetsWithRetry parseInt parseFloat cfg w in
  outcome run = Returned l ->
  In (LogParsed l) (events run) \/ l = localCustomers w.
Proof.
  destruct (retry_unfold w) as (throttle & w' & _ & Hs & _ & E).
  cbv zeta in E. cbv zeta. rewrite E. clear E. cbn [outcome events].
  intros Hl. destruct (attemptLoop_source MAX_RETRIES 1 w' l Hl) as [Hin|E].
  - left. apply in_or_app. now right.
  - right. subst l. unfold localCustomers. now rewrite Hs.
Qed.

(** The two branches of [getCustomers]. *)
Lemma getCustomers_configured (w : World) :
  configured cfg = true ->
  let r := fetchFromGoogleSheetsWithRetry parseInt parseFloat cfg w in
  getCustomers parseInt parseFloat cfg w =
  match outcome r with
  | Returned data =>
      mkRun (Returned data)
            (if writable (final r)
             then withStored (Some (jsonRoundTrip data)) (final r)
             else final r)
            (events r)
  | Thrown _ =>
      mkRun (Returned (localCustomers (final r))) (final r) (events r)
  end.
Proof.
  intros Hc. unfold getCustomers. rewrite Hc. cbv zeta.
  generalize (fetchFromGoogleSheetsWithRetry parseInt parseFloat cfg) as f.
  intros f.
  unfold tryCatch, bind, saveLocalCustomers, tryCatch, setItem, bind, ask,
    update, throw, ret, getLocalCustomers, bind, ask, ret, localCustomers.
  simpl.
  destruct (outcome (f w)) as [data|e] eqn:Ho; simpl; rewrite ?Ho; simpl.
  - destruct (writable (final (f w))); simpl; rewrite ?Ho; simpl;
      rewrite ?app_nil_r; reflexivity.
  - destruct (stored (final (f w))) as [[|c l]|]; simpl;
      rewrite ?app_nil_r; reflexivity.
Qed.

Lemma getCustomers_unconfigured (w : World) :
  configured cfg = false ->
  getCustomers parseInt parseFloat cfg w =
  fetchFromGoogleSheetsWithRetry parseInt parseFloat cfg w.
Proof. intros Hc. unfold getCustomers. now rewrite Hc. Qed.

Lemma configured_nonempty :
  configured cfg = true ->
  NODE_ENV cfg = "production" /\ spreadsheetId cfg <> "" /\ apiKey cfg <> "".
Proof.
  unfold configured. rewrite !andb_true_iff, !truthy_nonempty, String.eqb_eq.
  tauto.
Qed.


Lemma attemptLoop_first (remaining attempt : nat) (w : World) :
  exists rest,
    events (attemptLoop parseInt parseFloat cfg (S remaining) attempt w) =
    LogAttempt attempt ::
    Sent (GetSpreadsheet (trim (spreadsheetId cfg)) (apiKey cfg)) :: rest.
Proof.
  rewrite attemptLoop_step. cbv zeta.
  destruct (fetch_run (withLastApiCall (now w) w))
    as (_ & _ & _ & rest & Hrest).
  set (r := fetchFromGoogleSheets parseInt parseFloat cfg
              (withLastApiCall (now w) w)) in *.
  clearbody r.
  destruct (outcome r) as [data|e];
    [|destruct (isRateLimit e); [|destruct (attempt =? MAX_RETRIES)%nat]];
    cbn [events]; rewrite Hrest; simpl; eauto.
Qed.

Lemma events_getCustomers (w : World) :
  events (getCustomers parseInt parseFloat cfg w) =
  events (fetchFromGoogleSheetsWithRetry parseInt parseFloat cfg w).
Proof.
  destruct (configured cfg) eqn:Hc.
  - rewrite getCustomers_configured by exact Hc. cbv zeta.
    destruct (outcome (fetchFromGoogleSheetsWithRetry parseInt parseFloat
                         cfg w)); reflexivity.
  - now rewrite getCustomers_unconfigured.
Qed.

(** C4. In every fetch cycle at most 3 attempts are made, and whenever
    the log shows attempt number [a] failing with a rate-limit error (a
    message containing "429" or "RATE_LIMIT_EXCEEDED"), [a] is one of
    1, 2, 3 and the very next things that happen are the announcement
    of, and a wait of exactly, 2000 * 2^(a-1) milliseconds; for a < 3
    attempt a+1 starts right after that wait. *)
Theorem backoff_schedule (w : World) :
  let evs :=
    events (fetchFromGoogleSheetsWithRetry parseInt parseFloat cfg w) in
  attemptsMade evs <= 3 /\
  forall pre a e post,
    evs = pre ++ LogAttemptFailed a e :: post ->
    isRateLimit e = true ->
    1 <= a <= 3 /\
    exists rest,
      post = LogRetryWait (2000 * 2 ^ (Z.of_nat a - 1)) ::
             Slept (2000 * 2 ^ (Z.of_nat a - 1)) :: rest /\
      (a < 3 -> exists rest', rest = LogAttempt (S a) :: rest').
Proof.
  destruct (retry_unfold w) as (throttle & w' & Ht & _ & _ & E).
  cbv zeta in E. cbv zeta. rewrite E. clear E. cbn [events].
  pose proof (attemptLoop_paced MAX_RETRIES 1 w' eq_refl) as H.
  cbv zeta in H. destruct H as (Hn & _ & Hp).
  rewrite (attemptsMade_throttled _ _ Ht).
  split; [exact Hn|].
  intros pre a e post E He.
  apply split_quiet in E as (pre' & -> & E).
  - destruct (Hp _ _ _ _ E) as (Hr & Hw & _). split; [exact Hr|].
    exact (Hw He).
  - destruct Ht as [->|(ms & ->)]; [intros []|].
    intros [H|[]]; discriminate.
Qed.

(** C3, as the code has it. With an empty spreadsheet identifier or an
    empty key, [getCustomers] is exactly the retry-wrapped fetch: the
    remote side is contacted (at least one attempt, whose first request
    asks for the spreadsheet information), whatever comes out of the
    cycle, a result or an exception, is what the caller gets, and the
    cache is left as it was. *)
Theorem unconfigured_still_fetches (w : World) :
  spreadsheetId cfg = "" \/ apiKey cfg = "" ->
  let run := getCustomers parseInt parseFloat cfg w in
  run = fetchFromGoogleSheetsWithRetry parseInt parseFloat cfg w /\
  1 <= attemptsMade (events run) /\
  In (Sent (GetSpreadsheet (trim (spreadsheetId cfg)) (apiKey cfg)))
     (events run) /\
  stored (final run) = stored w.
Proof.
  intros Hempty. cbv zeta.
  assert (Hc : configured cfg = false).
  { destruct (configured cfg) eqn:Hc; [|reflexivity].
    apply configured_nonempty in Hc. tauto. }
  rewrite getCustomers_unconfigured by exact Hc.
  split; [reflexivity|].
  pose proof (retry_outcome w) as H. cbv zeta in H.
  destruct H as ((Hs & _) & _).
  destruct (retry_unfold w) as (throttle & w' & Ht & _ & _ & E).
  cbv zeta in E. rewrite E in *. clear E. cbn [events final] in *.
  destruct (attemptLoop_first 2 1 w') as (rest & Hrest).
  fold MAX_RETRIES in Hrest. rewrite Hrest.
  rewrite (attemptsMade_throttled _ _ Ht).
  split; [|split; [|exact Hs]].
  - unfold attemptsMade. simpl. lia.
  - apply in_or_app. right. right. now left.
Qed.

(** C5, as the code has it. When the log of [getCustomers] shows the
    first attempt failing with an error that is not of the rate-limit
    class, that attempt is the only one and nothing happens after the
    failure is logged (no wait, no second request).  In production with
    a non-empty spreadsheet identifier and key the caller then gets the
    cached records, or the empty sequence when there is none; in every
    other configuration the caller gets the error itself. *)
Theorem first_failure_not_retried (w : World) (e : Error) :
  let run := getCustomers parseInt parseFloat cfg w in
  In (LogAttemptFailed 1 e) (events run) ->
  isRateLimit e = false ->
  attemptsMade (events run) = 1 /\
  (exists pre, events run = pre ++ [LogAttemptFailed 1 e]) /\
  (configured cfg = true -> outcome run = Returned (localCustomers w)) /\
  (configured cfg = false -> outcome run = Thrown e).
Proof.
  cbv zeta. rewrite events_getCustomers. intros Hin He.
  pose proof (retry_outcome w) as H. cbv zeta in H.
  destruct H as ((Hs & _) & _ & Hnr & _).
  destruct (Hnr 1 e Hin He) as (Ho & Hc); [discriminate|].
  split; [exact Hc|]. split; [|split].
  - destruct (retry_unfold w) as (throttle & w' & Ht & _ & _ & E).
    cbv zeta in E. rewrite E in *. clear E. cbn [events] in *.
    apply (in_throttled _ _ _ Ht) in Hin; [|discriminate].
    apply in_split in Hin as (pre & post & Hsplit).
    pose proof (attemptLoop_paced MAX_RETRIES 1 w' eq_refl) as H.
    cbv zeta in H. destruct H as (_ & _ & Hp).
    destruct (Hp _ _ _ _ Hsplit) as (_ & _ & Hend).
    rewrite Hsplit, (Hend He). exists (throttle ++ pre).
    now rewrite app_assoc.
  - intros Hconf. rewrite getCustomers_configured by exact Hconf.
    cbv zeta. rewrite Ho. cbn [outcome]. unfold localCustomers.
    now rewrite Hs.
  - intros Hconf. rewrite getCustomers_unconfigured by exact Hconf.
    exact Ho.
Qed.

(** C6, as the code has it. In production with a non-empty spreadsheet
    identifier and key, when the log of [getCustomers] shows each of
    the 3 attempts failing with a rate-limit error, no exception
    reaches the caller: the call returns the cached records, or the
    empty sequence when there is none, after exactly 3 attempts, and
    the cache is left as it was. *)
Theorem exhausted_falls_back (w : World) :
  configured cfg = true ->
  let run := getCustomers parseInt parseFloat cfg w in
  (forall a, 1 <= a <= 3 ->
             exists e, In (LogAttemptFailed a e) (events run) /\
                       isRateLimit e = true) ->
  outcome run = Returned (localCustomers w) /\
  attemptsMade (events run) = 3 /\
  stored (final run) = stored w.
Proof.
  intros Hconf. cbv zeta. rewrite events_getCustomers. intros Hall.
  destruct (Hall 3) as (e & Hin & He); [lia|].
  pose proof (retry_outcome w) as H. cbv zeta in H.
  destruct H as ((Hs & _) & _ & _ & Hex).
  destruct (Hex e Hin He) as (Ho & Hc).
  rewrite getCustomers_configured by exact Hconf. cbv zeta.
  rewrite Ho. cbn [outcome final]. unfold localCustomers.
  rewrite Hs. auto.
Qed.

(** What [getCustomers] returns is a sequence it has just parsed, or
    else what the cache holds. *)
Lemma getCustomers_source (w : World) (l : list CustomerData) :
  let run := getCustomers parseInt parseFloat cfg w in
  outcome run = Returned l ->
  In (LogParsed l) (events run) \/ l = localCustomers w.
Proof.
  cbv zeta. rewrite events_getCustomers.
  pose proof (retry_outcome w) as H. cbv zeta in H.
  destruct H as ((Hs & _) & _).
  pose proof (retry_source w) as Hsrc. cbv zeta in Hsrc.
  destruct (configured cfg) eqn:Hc.
  - rewrite getCustomers_configured by exact Hc. cbv zeta.
    set (r := fetchFromGoogleSheetsWithRetry parseInt parseFloat cfg w) in *.
    clearbody r.
    destruct (outcome r) as [data|e] eqn:Ho; cbn [outcome]; intros E;
      injection E as E; subst l.
    + now apply Hsrc.
    + right. unfold localCustomers. now rewrite Hs.
  - rewrite getCustomers_unconfigured by exact Hc. apply Hsrc.
Qed.

(** A sequence [getCustomers] logs as parsed is the one it returns. *)
Lemma getCustomers_parsed (w : World) (data : list CustomerData) :
  let run := getCustomers parseInt parseFloat cfg w in
  In (LogParsed data) (events run) -> outcome run = Returned data.
Proof.
  cbv zeta. rewrite events_getCustomers. intros Hin.
  pose proof (retry_outcome w) as H. cbv zeta in H.
  destruct H as (_ & Hpar & _).
  destruct (configured cfg) eqn:Hc.
  - rewrite getCustomers_configured by exact Hc. cbv zeta.
    now rewrite (Hpar data Hin).
  - rewrite getCustomers_unconfigured by exact Hc. now apply Hpar.
Qed.

(** C7, as the code has it. In production with a non-empty spreadsheet
    identifier and key, and with a local storage that accepts the
    write, when the log of [getCustomers] shows a remote read that
    parsed to [data], the call returns [data] and the cache afterwards
    holds exactly what JSON keeps of [data]: each record of [data], in
    order, with an age or a weight that is not finite replaced by
    [null] and nothing else changed.  So the cache is [data] itself
    when every age and weight in it is finite, and in every case a
    record cached before that is not the stored form of a record of
    [data] is no longer cached. *)
Theorem successful_fetch_replaces_cache (w : World)
        (data : list CustomerData) :
  configured cfg = true ->
  writable w = true ->
  let run := getCustomers parseInt parseFloat cfg w in
  In (LogParsed data) (events run) ->
  outcome run = Returned data /\
  stored (final run) = Some (jsonRoundTrip data) /\
  localCustomers (final run) = jsonRoundTrip data /\
  (forallb finiteNumbers data = true ->
   localCustomers (final run) = data) /\
  forall c, In c (localCustomers w) -> ~ In c (jsonRoundTrip data) ->
            ~ In c (localCustomers (final run)).
Proof.
  intros Hconf Hw. cbv zeta. rewrite events_getCustomers. intros Hin.
  pose proof (retry_outcome w) as H. cbv zeta in H.
  destruct H as ((_ & Hw') & Hpar & _).
  rewrite getCustomers_configured by exact Hconf. cbv zeta.
  rewrite (Hpar data Hin), Hw', Hw. cbn [outcome final].
  rewrite localCustomers_saved.
  split; [reflexivity|]. split; [reflexivity|]. split; [reflexivity|].
  split; [intros Hfin; now apply jsonRoundTrip_finite|].
  intros c _ Hc. exact Hc.
Qed.


Lemma getLocalCustomers_run (w : World) :
  getLocalCustomers w = mkRun (Returned (localCustomers w)) w [].
Proof.
  unfold getLocalCustomers, bind, ask, ret, localCustomers. simpl.
  destruct (stored w); reflexivity.
Qed.

Lemma saveLocalCustomers_run (l : list CustomerData) (w : World) :
  saveLocalCustomers l w =
  mkRun (Returned tt)
        (if writable w then withStored (Some (jsonRoundTrip l)) w else w)
        [].
Proof.
  unfold saveLocalCustomers, tryCatch, setItem, bind, ask, update, throw,
    ret. simpl.
  destruct (writable w); reflexivity.
Qed.

Lemma bind_run {A B : Type} (m : Eff A) (k : A -> Eff B) (w : World) :
  bind m k w =
  match outcome (m w) with
  | Returned a =>
      mkRun (outcome (k a (final (m w)))) (final (k a (final (m w))))
            (events (m w) ++ events (k a (final (m w))))
  | Thrown e => mkRun (Thrown e) (final (m w)) (events (m w))
  end.
Proof. reflexivity. Qed.

Lemma updateCustomer_production (w : World) (customer : CustomerData)
      (j : nat) :
  NODE_ENV cfg = "production" ->
  findIndex (sameId customer) (localCustomers w) = Some j ->
  let w1 :=
    final (saveLocalCustomers
             (assignAt j customer (localCustomers w)) w) in
  let remote := updateCustomerInSheets parseInt parseFloat cfg customer w1 in
  let run := updateCustomer parseInt parseFloat cfg customer w in
  outcome run = outcome remote /\ events run = events remote.
Proof.
  intros Hprod Hfound. cbv zeta. unfold updateCustomer.
  generalize (updateCustomerInSheets parseInt parseFloat cfg customer)
    as remote.
  intros remote. rewrite Hprod.
  unfold bind at 1 3. rewrite getLocalCustomers_run.
  cbn [outcome final events]. rewrite Hfound.
  unfold bind. rewrite saveLocalCustomers_run.
  cbn [outcome final events app].
  change (("production" =? "production")%string) with true. cbv iota.
  split; reflexivity.
Qed.

Lemma updateCustomerInSheets_run (w : World) (customer : CustomerData) :
  let lookup := getCustomers parseInt parseFloat cfg w in
  let run := updateCustomerInSheets parseInt parseFloat cfg customer w in
  match outcome lookup with
  | Returned customers =>
      match findIndex (sameId customer) customers with
      | Some i =>
          events run =
            events lookup ++
            [Sent (PutValues (spreadsheetId cfg) (i + 2) (apiKey cfg)
                             (jsonValues [rowData customer]))]
      | None => outcome run = Thrown notFound /\ events run = events lookup
      end
  | Thrown e => outcome run = Thrown e /\ events run = events lookup
  end.
Proof.
  cbv zeta. unfold updateCustomerInSheets.
  generalize (getCustomers parseInt parseFloat cfg) as lookup.
  intros lookup. rewrite bind_run.
  destruct (outcome (lookup w)) as [customers|e] eqn:Ho;
    cbn [outcome final events]; [|auto].
  destruct (findIndex (sameId customer) customers) as [i|];
    [|unfold throw; cbn [outcome events]; rewrite ?app_nil_r; auto].
  f_equal.
  unfold bind, ask, update, fetch, bind, emit, throw, ret, jsonOf.
  cbn [outcome final events app].
  destruct (putReplies (final (lookup w)) (putCalls (final (lookup w))))
    as [e|response]; cbn [outcome final events app]; [reflexivity|].
  destruct (Http.ok response); cbn [negb outcome final events app].
  - reflexivity.
  - destruct (Http.json response); cbn [outcome final events app];
      reflexivity.
Qed.

(** The edited record sits in the cache where the old one was, whether
    or not the storage took the write. *)
Lemma findIndex_after_save (w : World) (customer : CustomerData) (j : nat) :
  findIndex (sameId customer) (localCustomers w) = Some j ->
  findIndex (sameId customer)
    (localCustomers
       (final (saveLocalCustomers
                 (assignAt j customer (localCustomers w)) w))) = Some j.
Proof.
  intros Hfound. rewrite saveLocalCustomers_run. cbn [final].
  destruct (writable w); [|exact Hfound].
  rewrite localCustomers_saved, findIndex_json.
  apply findIndex_assignAt; [exact Hfound|].
  unfold sameId. apply String.eqb_refl.
Qed.

Lemma getCustomers_attempts (w : World) :
  1 <= attemptsMade (events (getCustomers parseInt parseFloat cfg w)) /\
  In (Sent (GetSpreadsheet (trim (spreadsheetId cfg)) (apiKey cfg)))
     (events (getCustomers parseInt parseFloat cfg w)).
Proof.
  rewrite events_getCustomers.
  destruct (retry_unfold w) as (throttle & w' & Ht & _ & _ & E).
  cbv zeta in E. rewrite E. clear E. cbn [events].
  destruct (attemptLoop_first 2 1 w') as (rest & Hrest).
  fold MAX_RETRIES in Hrest. rewrite Hrest.
  rewrite (attemptsMade_throttled _ _ Ht). split.
  - unfold attemptsMade. simpl. lia.
  - apply in_or_app. right. right. now left.
Qed.

(** C8, as the code has it. An update in production, of a record the
    cache holds at position [j], looks the record up in the sequence
    that a call of [getCustomers] made during the update returns, the
    edit having been written to the cache before.  That call contacts
    the remote side each time (at least one attempt).  When it reads
    the sheet, parsing it to [data], the record is looked up in [data]:
    found at position [i] (counted from 0), the only thing sent
    afterwards is one PUT for sheet row [i + 2], whose body holds a
    single row of 13 values; not found, the update ends with the
    not-found error and nothing more is sent.  When it reads no sheet,
    the sequence searched is not a fresh one: either the call returns
    the cache, where the record sits at position [j], and the PUT goes
    out all the same, for row [j + 2]; or the call throws, and so does
    the update, nothing more being sent.  With a non-empty spreadsheet
    identifier and key the call never throws. *)
Theorem update_writes_located_row (w : World) (customer : CustomerData)
        (j : nat) :
  NODE_ENV cfg = "production" ->
  findIndex (sameId customer) (localCustomers w) = Some j ->
  let w1 :=
    final (saveLocalCustomers
             (assignAt j customer (localCustomers w)) w) in
  let read := getCustomers parseInt parseFloat cfg w1 in
  let run := updateCustomer parseInt parseFloat cfg customer w in
  map (@List.length Cell) (jsonValues [rowData customer]) = [13] /\
  1 <= attemptsMade (events read) /\
  (forall data,
     In (LogParsed data) (events read) ->
     outcome read = Returned data /\
     match findIndex (sameId customer) data with
     | Some i =>
         events run =
           events read ++
           [Sent (PutValues (spreadsheetId cfg) (i + 2) (apiKey cfg)
                            (jsonValues [rowData customer]))]
     | None => outcome run = Thrown notFound /\ events run = events read
     end) /\
  ((forall data, ~ In (LogParsed data) (events read)) ->
   match outcome read with
   | Returned customers =>
       customers = localCustomers w1 /\
       events run =
         events read ++
         [Sent (PutValues (spreadsheetId cfg) (j + 2) (apiKey cfg)
                          (jsonValues [rowData customer]))]
   | Thrown e => outcome run = Thrown e /\ events run = events read
   end) /\
  (configured cfg = true ->
   exists customers, outcome read = Returned customers).
Proof.
  intros Hprod Hfound. cbv zeta.
  destruct (updateCustomer_production w customer j Hprod Hfound)
    as (Ho & He).
  cbv zeta in Ho, He. rewrite Ho, He. clear Ho He.
  pose proof (findIndex_after_save w customer j Hfound) as Hkept.
  set (w1 := final (saveLocalCustomers _ w)) in *.
  pose proof (updateCustomerInSheets_run w1 customer) as H.
  cbv zeta in H.
  split; [reflexivity|].
  split; [exact (proj1 (getCustomers_attempts w1))|].
  split; [|split].
  - intros data Hin.
    pose proof (getCustomers_parsed w1 data Hin) as Hread.
    rewrite Hread in H. split; [exact Hread|exact H].
  - intros Hnone.
    pose proof (getCustomers_source w1) as Hsrc. cbv zeta in Hsrc.
    destruct (outcome (getCustomers parseInt parseFloat cfg w1))
      as [customers|e]; [|exact H].
    destruct (Hsrc customers eq_refl) as [Hin|E];
      [now elim (Hnone customers)|]. subst customers.
    rewrite Hkept in H. split; [reflexivity|exact H].
  - intros Hconf. rewrite getCustomers_configured by exact Hconf.
    cbv zeta.
    destruct (outcome (fetchFromGoogleSheetsWithRetry parseInt parseFloat
                         cfg w1)); cbn [outcome]; eauto.
Qed.

End ServiceFacts.

(** ** The retry loop on the sample worlds *)

Section ServiceExamples.
Import JS GoogleSheetsService Sample.

(** Two throttled attempts, then success: the wait before attempt 3 is
    4000 ms. *)
Lemma backoff_schedule_witness :
  let evs :=
    events (fetchFromGoogleSheetsWithRetry parseDecimal parseDecimal
              production thirdTimeLucky) in
  evs = firstn 7 evs ++ LogAttemptFailed 2 tooManyRequests :: skipn 8 evs /\
  isRateLimit tooManyRequests = true /\
  exists rest,
    skipn 8 evs = LogRetryWait 4000 :: Slept 4000 :: LogAttempt 3 :: rest.
Proof.
  cbv zeta.
  set (evs := events (fetchFromGoogleSheetsWithRetry parseDecimal
                        parseDecimal production thirdTimeLucky)).
  assert (Hsplit : evs = firstn 7 evs ++
                         LogAttemptFailed 2 tooManyRequests :: skipn 8 evs)
    by (vm_compute; reflexivity).
  assert (Hrate : isRateLimit tooManyRequests = true) by reflexivity.
  destruct (backoff_schedule parseDecimal parseDecimal production
              thirdTimeLucky) as (_ & Hpaced).
  destruct (Hpaced _ _ _ _ Hsplit Hrate) as (_ & rest & Hpost & Hnext).
  destruct Hnext as (rest' & ->); [lia|].
  split; [exact Hsplit|]. split; [exact Hrate|].
  exists rest'. exact Hpost.
Defined.

(** C3 as stated fails: with an empty spreadsheet identifier the remote
    side is contacted all the same, and its 404 reaches the caller as an
    exception instead of an empty result. *)
Lemma unconfigured_fetch_attempted :
  let run := getCustomers parseDecimal parseDecimal noSpreadsheet
                          alwaysMissing in
  spreadsheetId noSpreadsheet = "" /\
  events run = [ LogAttempt 1;
                 Sent (GetSpreadsheet "" "key-1");
                 LogAttemptFailed 1 notFound404 ] /\
  outcome run = Thrown notFound404.
Proof. vm_compute. repeat split. Qed.

Lemma unconfigured_still_fetches_witness :
  let run := getCustomers parseDecimal parseDecimal noSpreadsheet
                          alwaysMissing in
  (spreadsheetId noSpreadsheet = "" \/ apiKey noSpreadsheet = "") /\
  1 <= attemptsMade (events run) /\
  stored (final run) = stored alwaysMissing.
Proof.
  cbv zeta.
  assert (H : spreadsheetId noSpreadsheet = "" \/ apiKey noSpreadsheet = "")
    by (left; reflexivity).
  destruct (unconfigured_still_fetches parseDecimal parseDecimal
              noSpreadsheet alwaysMissing H) as (_ & Hn & _ & Hs).
  split; [exact H|]. split; [exact Hn|exact Hs].
Defined.

(** C5 as stated fails: in development a first attempt that fails with a
    parse error is not retried, but the caller gets that error, not the
    cached records. *)
Lemma development_first_failure_thrown :
  let run := getCustomers parseDecimal parseDecimal development
                          firstGarbled in
  In (LogAttemptFailed 1 badJson) (events run) /\
  isRateLimit badJson = false /\
  localCustomers firstGarbled = [formerCustomer] /\
  outcome run = Thrown badJson.
Proof. vm_compute. repeat split. right. right. right. left. reflexivity. Qed.

Lemma first_failure_not_retried_witness :
  let run := getCustomers parseDecimal parseDecimal production
                          firstGarbled in
  In (LogAttemptFailed 1 badJson) (events run) /\
  isRateLimit badJson = false /\
  attemptsMade (events run) = 1 /\
  outcome run = Returned [formerCustomer].
Proof.
  cbv zeta.
  assert (Hin : In (LogAttemptFailed 1 badJson)
                   (events (getCustomers parseDecimal parseDecimal
                              production firstGarbled)))
    by (vm_compute; right; right; right; left; reflexivity).
  assert (Hrate : isRateLimit badJson = false) by reflexivity.
  destruct (first_failure_not_retried parseDecimal parseDecimal production
              firstGarbled badJson Hin Hrate) as (Hn & _ & Hprod & _).
  split; [exact Hin|]. split; [exact Hrate|]. split; [exact Hn|].
  exact (Hprod eq_refl).
Defined.

(** C6 as stated fails: in development three throttled attempts end in
    an exception that reaches the caller, although the cache holds a
    record. *)
Lemma development_exhaustion_thrown :
  let run := getCustomers parseDecimal parseDecimal development
                          alwaysThrottled in
  (forall a, 1 <= a <= 3 ->
             exists e, In (LogAttemptFailed a e) (events run) /\
                       isRateLimit e = true) /\
  localCustomers alwaysThrottled = [formerCustomer] /\
  outcome run = Thrown exhausted.
Proof.
  cbv zeta. split; [|split; reflexivity].
  intros a Ha. exists tooManyRequests. split; [|reflexivity].
  assert (E : a = 1 \/ a = 2 \/ a = 3) by lia.
  destruct E as [E|[E|E]]; subst a; vm_compute; auto 20.
Qed.

Lemma exhausted_falls_back_witness :
  let run := getCustomers parseDecimal parseDecimal production
                          alwaysThrottled in
  configured production = true /\
  outcome run = Returned [formerCustomer] /\
  attemptsMade (events run) = 3.
Proof.
  cbv zeta.
  assert (Hall : forall a, 1 <= a <= 3 ->
            exists e,
              In (LogAttemptFailed a e)
                 (events (getCustomers parseDecimal parseDecimal production
                            alwaysThrottled)) /\
              isRateLimit e = true).
  { intros a Ha. exists tooManyRequests. split; [|reflexivity].
    assert (E : a = 1 \/ a = 2 \/ a = 3) by lia.
    destruct E as [E|[E|E]]; subst a; vm_compute; auto 20. }
  destruct (exhausted_falls_back parseDecimal parseDecimal production
              alwaysThrottled eq_refl Hall) as (Ho & Hn & _).
  split; [reflexivity|]. split; [exact Ho|exact Hn].
Defined.

(** C7 as stated fails, in three ways.  In development a successful
    remote read leaves the cache alone, so a record cached before and
    absent from the fresh set is still cached afterwards; in production
    the same happens when the local storage refuses the write; and in
    production with a storage that takes the write, a fetched record
    whose weight cell reads [Infinity] is returned with that weight but
    cached with [null], so what the cache holds is not the fetched
    set. *)
Lemma fetched_set_not_cached :
  (let run := getCustomers parseDecimal parseDecimal development reachable in
   In (LogParsed parsed) (events run) /\
   outcome run = Returned parsed /\
   In formerCustomer (localCustomers reachable) /\
   ~ In formerCustomer parsed /\
   In formerCustomer (localCustomers (final run)) /\
   localCustomers (final run) <> parsed) /\
  (let run := getCustomers parseDecimal parseDecimal production
                           storageRefusing in
   In (LogParsed parsed) (events run) /\
   outcome run = Returned parsed /\
   In formerCustomer (localCustomers storageRefusing) /\
   ~ In formerCustomer parsed /\
   In formerCustomer (localCustomers (final run)) /\
   localCustomers (final run) <> parsed) /\
  (let run := getCustomers parseDecimal parseNumeral production unweighed in
   let data := parseSheetData parseDecimal parseNumeral day
                              [header; yamada] in
   writable unweighed = true /\
   In (LogParsed data) (events run) /\
   outcome run = Returned data /\
   map weight data = [Infinity false] /\
   map weight (localCustomers (final run)) = [Null] /\
   localCustomers (final run) <> data).
Proof.
  cbv zeta. split; [|split].
  - split; [vm_compute; auto 10|]. split; [reflexivity|].
    split; [left; reflexivity|]. split; [|split].
    + vm_compute. intros [H|[H|[]]]; discriminate H.
    + left. reflexivity.
    + vm_compute. discriminate.
  - split; [vm_compute; auto 10|]. split; [reflexivity|].
    split; [left; reflexivity|]. split; [|split].
    + vm_compute. intros [H|[H|[]]]; discriminate H.
    + left. reflexivity.
    + vm_compute. discriminate.
  - split; [reflexivity|]. split; [vm_compute; auto 10|].
    split; [reflexivity|]. split; [reflexivity|]. split; [reflexivity|].
    vm_compute. discriminate.
Qed.

Lemma successful_fetch_replaces_cache_witness :
  let run := getCustomers parseDecimal parseDecimal production reachable in
  configured production = true /\
  writable reachable = true /\
  In (LogParsed parsed) (events run) /\
  forallb finiteNumbers parsed = true /\
  localCustomers (final run) = parsed /\
  ~ In formerCustomer (localCustomers (final run)).
Proof.
  cbv zeta.
  assert (Hin : In (LogParsed parsed)
                   (events (getCustomers parseDecimal parseDecimal
                              production reachable)))
    by (vm_compute; auto 10).
  destruct (successful_fetch_replaces_cache parseDecimal parseDecimal
              production reachable parsed eq_refl eq_refl Hin)
    as (_ & _ & _ & Hfin & Hgone).
  split; [reflexivity|]. split; [reflexivity|]. split; [exact Hin|].
  split; [reflexivity|]. split; [exact (Hfin eq_refl)|].
  apply Hgone; [left; reflexivity|].
  vm_compute. intros [H|[H|[]]]; discriminate H.
Defined.

(** C8 as stated fails: in production, when the sheet cannot be read
    (every request answered with 404), no fresh sequence is fetched,
    and still the row is located, in the cache holding the edit, and
    the PUT is sent, for row 3; the update reports success. *)
Lemma row_located_without_fresh_fetch :
  let run := updateCustomer parseDecimal parseDecimal production
                            satoEdited offline in
  findIndex (sameId satoEdited) (localCustomers offline) = Some 1 /\
  (forall data, ~ In (LogParsed data) (events run)) /\
  events run =
    [ LogAttempt 1;
      Sent (GetSpreadsheet "sheet-1" "key-1");
      LogAttemptFailed 1 notFound404;
      Sent (PutValues "sheet-1" 3 "key-1"
              (jsonValues [rowData satoEdited])) ] /\
  outcome run = Returned tt.
Proof.
  cbv zeta. split; [reflexivity|]. split; [|split; reflexivity].
  intros data. vm_compute. intros [H|[H|[H|[H|[]]]]]; discriminate H.
Qed.

Lemma update_writes_located_row_witness :
  let run := updateCustomer parseDecimal parseDecimal production
                            satoEdited synced in
  NODE_ENV production = "production" /\
  findIndex (sameId satoEdited) (localCustomers synced) = Some 1 /\
  exists before,
    In (LogParsed parsed) before /\
    events run =
    before ++ [Sent (PutValues "sheet-1" 3 "key-1"
                       (jsonValues [rowData satoEdited]))].
Proof.
  cbv zeta.
  assert (Hfound : findIndex (sameId satoEdited) (localCustomers synced)
                   = Some 1) by reflexivity.
  pose proof (update_writes_located_row parseDecimal parseDecimal
                production synced satoEdited 1 eq_refl Hfound) as H.
  cbv zeta in H.
  set (w1 := final (saveLocalCustomers
                      (assignAt 1 satoEdited (localCustomers synced))
                      synced)) in H.
  destruct H as (_ & _ & Hfresh & _).
  assert (Hin : In (LogParsed parsed)
                   (events (getCustomers parseDecimal parseDecimal
                              production w1)))
    by (vm_compute; auto 10).
  destruct (Hfresh parsed Hin) as (_ & Hev).
  change (findIndex (sameId satoEdited) parsed) with (Some 1) in Hev.
  cbv iota beta in Hev.
  split; [reflexivity|]. split; [exact Hfound|].
  eexists. split; [exact Hin|exact Hev].
Defined.

End ServiceExamples.

(** ** Photo upload *)

Section PhotoFacts.
Import JS PhotoService.

Lemma rejection_messages_nonempty : tooLarge <> "" /\ tooMany <> "".
Proof. split; vm_compute; discriminate. Qed.

(** C10. An upload of a file larger than 5 * 1024 * 1024 bytes, or for
    a customer who already has 50 or more stored photos, returns a
    result with [success = false], no photo and a non-empty error
    message, and leaves the stored photos (the whole browser state)
    unchanged. *)
Theorem rejected_upload_changes_nothing (customer : string) (file : File)
        (descr : option string) (w : World) :
  (5 * 1024 * 1024 < size file)%N \/
  50 <= List.length (getPhotosByCustomerId customer w) ->
  success (fst (uploadPhoto customer file descr w)) = false /\
  photo (fst (uploadPhoto customer file descr w)) = None /\
  (exists message,
      error (fst (uploadPhoto customer file descr w)) = Some message /\
      message <> "") /\
  snd (uploadPhoto customer file descr w) = w /\
  getAllPhotos (snd (uploadPhoto customer file descr w)) = getAllPhotos w.
Proof.
  intros Hrejected. unfold uploadPhoto.
  destruct rejection_messages_nonempty as (Hlarge & Hmany).
  destruct (MAX_FILE_SIZE <? size file)%N eqn:Hsize.
  - simpl. repeat split; eauto.
  - destruct (MAX_PHOTOS_PER_CUSTOMER <=?
              List.length (getPhotosByCustomerId customer w))%nat eqn:Hcount.
    + simpl. repeat split; eauto.
    + exfalso. apply N.ltb_ge in Hsize. apply Nat.leb_gt in Hcount.
      unfold MAX_FILE_SIZE, MAX_PHOTOS_PER_CUSTOMER in *.
      destruct Hrejected as [H|H]; lia.
Qed.

End PhotoFacts.

Section PhotoExamples.
Import JS PhotoService.

Lemma rejected_upload_changes_nothing_witness :
  let w := {| stored := None; writable := true;
              readAsDataURL := fun _ => Some "data:image/jpeg;base64,AAAA";
              clock := 1700000000000; randomSuffix := "k3j9x0q1z";
              isoTime := "2023-11-14T22:13:20.000Z" |} in
  let file := {| name := "pochi.jpg"; size := 6000000 |} in
  (5 * 1024 * 1024 < size file)%N /\
  success (fst (uploadPhoto "C001" file None w)) = false /\
  snd (uploadPhoto "C001" file None w) = w.
Proof.
  cbv zeta.
  set (w := {| stored := None; writable := true;
               readAsDataURL := fun _ => Some "data:image/jpeg;base64,AAAA";
               clock := 1700000000000; randomSuffix := "k3j9x0q1z";
               isoTime := "2023-11-14T22:13:20.000Z" |}).
  set (file := {| name := "pochi.jpg"; size := 6000000 |}).
  assert (H : (5 * 1024 * 1024 < size file)%N) by reflexivity.
  destruct (rejected_upload_changes_nothing "C001" file None w (or_introl H))
    as (Hfail & _ & _ & Hsame & _).
  split; [exact H|]. split; [exact Hfail|exact Hsame].
Defined.

End PhotoExamples.

(* ================================================================== *)
(** * Further properties *)
(* ================================================================== *)

(** ** Looking records up in a parsed sheet *)

Section LookupFacts.
Import JS GoogleSheetsService.

Variables parseInt parseFloat : string -> number.
Variable today : string.

Lemma customerId_eqb (i j : nat) :
  (customerId i =? customerId j)%string = (i =? j)%nat.
Proof.
  destruct (Nat.eqb_spec i j) as [->|Hne].
  - apply String.eqb_refl.
  - apply String.eqb_neq. intros E. apply customerId_inj in E. contradiction.
Qed.

Lemma find_id_below (rows : list (list string)) (start m : nat) :
  m < start ->
  find (fun c => (id c =? customerId m)%string)
       (filter hasNames
          (mapIndexFrom (customerOfRow parseInt parseFloat today) start rows))
  = None.
Proof.
  revert start.
  induction rows as [|row rows IH]; intros start Hlt;
    cbn [mapIndexFrom filter].
  - reflexivity.
  - destruct (hasNames _); cbn [find id customerOfRow].
    + rewrite customerId_eqb.
      destruct (Nat.eqb_spec start m); [lia|]. apply IH. lia.
    + apply IH. lia.
Qed.

Lemma find_id_from (rows : list (list string)) (start k : nat) :
  find (fun c => (id c =? customerId (start + k))%string)
       (filter hasNames
          (mapIndexFrom (customerOfRow parseInt parseFloat today) start rows))
  = match nth_error rows k with
    | Some row =>
        if hasNames (customerOfRow parseInt parseFloat today row (start + k))
        then Some (customerOfRow parseInt parseFloat today row (start + k))
        else None
    | None => None
    end.
Proof.
  revert start k. induction rows as [|row rows IH]; intros start k.
  - destruct k; reflexivity.
  - destruct k as [|k]; cbn [mapIndexFrom filter nth_error].
    + rewrite Nat.add_0_r.
      destruct (hasNames (customerOfRow parseInt parseFloat today row start))
        eqn:Hn.
      * cbn [find id customerOfRow]. now rewrite String.eqb_refl.
      * apply find_id_below. lia.
    + replace (start + S k) with (S start + k) by lia.
      destruct (hasNames (customerOfRow parseInt parseFloat today row start)).
      * cbn [find id customerOfRow]. rewrite customerId_eqb.
        destruct (Nat.eqb_spec start (S start + k)); [lia|]. apply IH.
      * apply IH.
Qed.

(** X1. Looking an identifier up in a parsed grid gives back the record
    of the data row it was numbered from: searching the result for the
    identifier of data row [k] (counted from 0) finds the record built
    from that row when the row has both names, and finds nothing when
    the row is absent or was dropped. *)
Theorem lookup_by_identifier (values : list (list string)) (k : nat) :
  find (fun c => (id c =? customerId k)%string)
       (parseSheetData parseInt parseFloat today values)
  = match nth_error (tl values) k with
    | Some row =>
        if hasNames (customerOfRow parseInt parseFloat today row k)
        then Some (customerOfRow parseInt parseFloat today row k)
        else None
    | None => None
    end.
Proof.
  rewrite parse_unfold. unfold mapIndex.
  exact (find_id_from (tl values) 0 k).
Qed.

Lemma findIndex_id_below (rows : list (list string)) (start m : nat) :
  m < start ->
  findIndex (fun c => (id c =? customerId m)%string)
       (filter hasNames
          (mapIndexFrom (customerOfRow parseInt parseFloat today) start rows))
  = None.
Proof.
  revert start.
  induction rows as [|row rows IH]; intros start Hlt;
    cbn [mapIndexFrom filter].
  - reflexivity.
  - destruct (hasNames _); cbn [findIndex id customerOfRow].
    + rewrite customerId_eqb.
      destruct (Nat.eqb_spec start m); [lia|]. rewrite IH by lia. reflexivity.
    + apply IH. lia.
Qed.

Lemma findIndex_id_from (rows : list (list string)) (start k : nat)
      (row : list string) :
  nth_error rows k = Some row ->
  hasNames (customerOfRow parseInt parseFloat today row (start + k)) = true ->
  findIndex (fun c => (id c =? customerId (start + k))%string)
       (filter hasNames
          (mapIndexFrom (customerOfRow parseInt parseFloat today) start rows))
  = Some (List.length
            (filter hasNames
               (mapIndexFrom (customerOfRow parseInt parseFloat today) start
                             (firstn k rows)))).
Proof.
  revert start k. induction rows as [|r rows IH]; intros start k Hk Hn.
  - destruct k; discriminate.
  - destruct k as [|k]; cbn [mapIndexFrom filter nth_error firstn] in *.
    + injection Hk as ->. rewrite Nat.add_0_r in *. rewrite Hn.
      cbn [findIndex id customerOfRow]. now rewrite String.eqb_refl.
    + replace (start + S k) with (S start + k) in * by lia.
      destruct (hasNames (customerOfRow parseInt parseFloat today r start)).
      * cbn [findIndex id customerOfRow List.length].
        rewrite customerId_eqb.
        destruct (Nat.eqb_spec start (S start + k)); [lia|].
        now rewrite (IH (S start) k Hk Hn).
      * exact (IH (S start) k Hk Hn).
Qed.

Lemma kept_at_most (rows : list (list string)) (start : nat) :
  List.length
    (filter hasNames
       (mapIndexFrom (customerOfRow parseInt parseFloat today) start rows))
  <= List.length rows.
Proof.
  rewrite <- (mapIndexFrom_length (customerOfRow parseInt parseFloat today)
                                  rows start).
  apply filter_length_le.
Qed.

(** X2. The position of a record in the parsed result is the number of
    records the rows above its own row produce, and so never exceeds the
    number [k] of its data row. *)
Theorem position_of_parsed_record (values : list (list string)) (k : nat)
        (row : list string) :
  nth_error (tl values) k = Some row ->
  cell row 1 <> "" ->
  cell row 6 <> "" ->
  exists position,
    findIndex (fun c => (id c =? customerId k)%string)
              (parseSheetData parseInt parseFloat today values)
    = Some position /\
    position =
      List.length
        (parseSheetData parseInt parseFloat today (firstn (S k) values)) /\
    position <= k.
Proof.
  intros Hk H1 H6.
  assert (Hn : hasNames (customerOfRow parseInt parseFloat today row (0 + k))
               = true) by (apply hasNames_named; auto).
  destruct values as [|header rows]; [destruct k; discriminate|].
  cbn [tl] in Hk. eexists. split; [|split].
  - rewrite parse_unfold. unfold mapIndex. cbn [tl].
    exact (findIndex_id_from rows 0 k row Hk Hn).
  - rewrite parse_unfold. unfold mapIndex. reflexivity.
  - etransitivity; [apply kept_at_most|].
    rewrite length_firstn. lia.
Qed.


End LookupFacts.

Section LookupExamples.
Import JS GoogleSheetsService Sample.

Lemma position_of_parsed_record_witness :
  nth_error (tl [header; blankOwner; [""; ""]; sato]) 2 = Some sato /\
  customerId 2 = "C003" /\
  findIndex (fun c => (id c =? customerId 2)%string)
            (parseSheetData parseDecimal parseDecimal day
               [header; blankOwner; [""; ""]; sato])
  = Some 1.
Proof.
  assert (Hk : nth_error (tl [header; blankOwner; [""; ""]; sato]) 2
               = Some sato) by reflexivity.
  destruct (position_of_parsed_record parseDecimal parseDecimal day
              [header; blankOwner; [""; ""]; sato] 2 sato Hk)
    as (position & Hfound & Hcount & _); [discriminate|discriminate|].
  split; [exact Hk|]. split; [reflexivity|].
  rewrite Hfound, Hcount. reflexivity.
Defined.


End LookupExamples.

(** ** More on the retry loop *)

Section RetryFacts.
Import JS GoogleSheetsService.

Variables parseInt parseFloat : string -> number.
Variable cfg : Config.

Lemma prefix_append (needle rest : string) :
  String.prefix needle (needle ++ rest)%string = true.
Proof.
  induction needle as [|c needle IH]; simpl.
  - destruct rest; reflexivity.
  - destruct (ascii_dec c c) as [_|Hne]; [exact IH|now elim Hne].
Qed.

Lemma includes_here (needle hay : string) :
  String.prefix needle hay = true -> includes needle hay = true.
Proof. intros H. destruct hay; cbn [includes]; rewrite H; reflexivity. Qed.

Lemma includes_middle (needle before rest : string) :
  includes needle (before ++ needle ++ rest)%string = true.
Proof.
  induction before as [|c before IH].
  - cbn [append]. apply includes_here, prefix_append.
  - cbn [append includes]. rewrite IH. apply orb_true_r.
Qed.

Lemma waited_app (l1 l2 : list Event) :
  waited (l1 ++ l2) = (waited l1 + waited l2)%Z.
Proof.
  induction l1 as [|ev l1 IH]; simpl; [reflexivity|].
  destruct ev; rewrite ?IH; lia.
Qed.

Lemma waited_remote (l : list Event) :
  Forall (fun ev => remoteEvent ev = true) l -> waited l = 0%Z.
Proof.
  induction 1 as [|ev l Hev _ IH]; simpl; [reflexivity|].
  destruct ev; simpl in *; try discriminate; exact IH.
Qed.

Lemma backoffDelay_values :
  backoffDelay 1 = 2000%Z /\ backoffDelay 2 = 4000%Z /\
  backoffDelay 3 = 8000%Z /\ backoffDelay 4 = 16000%Z.
Proof. repeat split. Qed.

(** Time and fallback along the loop. *)
Lemma attemptLoop_more (remaining attempt : nat) (w : World) :
  attempt + remaining = S MAX_RETRIES ->
  1 <= attempt ->
  let run := attemptLoop parseInt parseFloat cfg remaining attempt w in
  (0 <= waited (events run) <= 16000 - backoffDelay attempt)%Z /\
  (now w <= now (final run))%Z /\
  (forall e, In (LogAttemptFailed MAX_RETRIES e) (events run) ->
             isRateLimit e = true ->
             waited (events run) = (16000 - backoffDelay attempt)%Z /\
             exists before, events run = before ++ [Slept 8000]) /\
  (forall e, In (LogAttemptFailed MAX_RETRIES e) (events run) ->
             isRateLimit e = false ->
             outcome run = Returned (localCustomers w) /\
             attemptsMade (events run) = remaining).
Proof.
  revert attempt w.
  induction remaining as [|remaining IH]; intros attempt w Hsum Hpos run.
  - subst run. assert (attempt = 4) by (unfold MAX_RETRIES in *; lia).
    subst attempt. simpl. repeat split; try lia; try congruence;
      intros; contradiction.
  - subst run. rewrite attemptLoop_step. cbv zeta.
    destruct (fetch_run parseInt parseFloat cfg (withLastApiCall (now w) w))
      as (Hf & Hq & _ & _).
    set (r := fetchFromGoogleSheets parseInt parseFloat cfg
                (withLastApiCall (now w) w)) in *.
    clearbody r.
    assert (Hnf : forall a e, ~ In (LogAttemptFailed a e) (events r))
      by (intros a e; exact (remote_not_failure _ a e Hq)).
    assert (Hwr : waited (events r) = 0%Z) by exact (waited_remote _ Hq).
    assert (Hnow : now (final r) = now w /\ stored (final r) = stored w)
      by (rewrite Hf; repeat split).
    destruct Hnow as (Hnow & Hst).
    assert (Hd : (0 <= backoffDelay attempt <= 8000)%Z /\
                 backoffDelay (S attempt) = (2 * backoffDelay attempt)%Z).
    { assert (E : attempt = 1 \/ attempt = 2 \/ attempt = 3)
        by (unfold MAX_RETRIES in *; lia).
      destruct E as [E|[E|E]]; subst attempt; vm_compute;
        repeat split; discriminate. }
    destruct Hd as (Hd & Hd2).
    destruct (outcome r) as [data0|e0] eqn:Ho.
    + cbn [outcome final events].
      assert (Hno : forall a e,
                 ~ In (LogAttemptFailed a e) (LogAttempt attempt :: events r)).
      { intros a e [H|H]; [discriminate|now apply Hnf in H]. }
      cbn [waited]. rewrite Hwr.
      split; [lia|]. split; [lia|]. split.
      * intros e H. now apply Hno in H.
      * intros e H. now apply Hno in H.
    + destruct (isRateLimit e0) eqn:Hrl.
      * cbv zeta. cbn [outcome final events].
        set (w' := wakeUp _ _).
        assert (Hw' : now w' = (now w + backoffDelay attempt)%Z /\
                      stored w' = stored w).
        { subst w'. unfold wakeUp. cbn [now stored withNow withLastApiCall].
          rewrite Hnow, Hst. auto. }
        destruct Hw' as (Hnow' & Hst').
        pose proof (IH (S attempt) w') as H. cbv zeta in H.
        destruct H as (Hb & Hmono & Hex & Hfb); [lia|lia|].
        set (run' := attemptLoop parseInt parseFloat cfg remaining
                       (S attempt) w') in *.
        assert (Hwait : waited
                  (LogAttempt attempt :: events r ++
                   LogAttemptFailed attempt e0 ::
                   LogRetryWait (backoffDelay attempt) ::
                   Slept (backoffDelay attempt) :: events run') =
                  (backoffDelay attempt + waited (events run'))%Z).
        { cbn [waited]. rewrite waited_app. cbn [waited]. lia. }
        assert (Hcount : attemptsMade
                  (LogAttempt attempt :: events r ++
                   LogAttemptFailed attempt e0 ::
                   LogRetryWait (backoffDelay attempt) ::
                   Slept (backoffDelay attempt) :: events run') =
                  S (attemptsMade (events run'))).
        { change (LogAttempt attempt :: events r ++
                  LogAttemptFailed attempt e0 ::
                  LogRetryWait (backoffDelay attempt) ::
                  Slept (backoffDelay attempt) :: events run')
            with ([LogAttempt attempt] ++ events r ++
                  [LogAttemptFailed attempt e0;
                   LogRetryWait (backoffDelay attempt);
                   Slept (backoffDelay attempt)] ++ events run').
          rewrite !attemptsMade_app, (attemptsMade_remote _ Hq).
          unfold attemptsMade at 1 2. simpl. lia. }
        assert (Hin : forall x,
                   In x (LogAttempt attempt :: events r ++
                         LogAttemptFailed attempt e0 ::
                         LogRetryWait (backoffDelay attempt) ::
                         Slept (backoffDelay attempt) :: events run') ->
                   x = LogAttempt attempt \/ In x (events r) \/
                   x = LogAttemptFailed attempt e0 \/
                   x = LogRetryWait (backoffDelay attempt) \/
                   x = Slept (backoffDelay attempt) \/ In x (events run')).
        { intros x [H|H]; [auto|]. apply in_app_or in H as [H|H]; [auto|].
          destruct H as [H|[H|[H|H]]]; auto 10. }
        rewrite Hwait.
        split; [rewrite Hd2 in Hb; lia|]. split; [lia|]. split.
        -- intros e H He. apply Hin in H.
           destruct H as [H|[H|[H|[H|[H|H]]]]]; try discriminate.
           ++ now apply Hnf in H.
           ++ injection H as <- <-.
              assert (remaining = 0) by (unfold MAX_RETRIES in *; lia).
              subst remaining. subst run'. split; [reflexivity|].
              cbn [attemptLoop throw events].
              exists (LogAttempt MAX_RETRIES :: events r ++
                      [LogAttemptFailed MAX_RETRIES e;
                       LogRetryWait (backoffDelay MAX_RETRIES)]).
              rewrite <- app_comm_cons, <- app_assoc. reflexivity.
           ++ destruct (Hex e H He) as (Hw & before & Hbefore).
              split; [rewrite Hw, Hd2; lia|].
              rewrite Hbefore.
              exists (LogAttempt attempt :: events r ++
                      LogAttemptFailed attempt e0 ::
                      LogRetryWait (backoffDelay attempt) ::
                      Slept (backoffDelay attempt) :: before).
              rewrite <- app_comm_cons, <- app_assoc. reflexivity.
        -- intros e H He. apply Hin in H.
           destruct H as [H|[H|[H|[H|[H|H]]]]]; try discriminate.
           ++ now apply Hnf in H.
           ++ injection H as <- <-. congruence.
           ++ destruct (Hfb e H He) as (-> & Hc).
              unfold localCustomers. rewrite Hst'.
              split; [reflexivity|]. rewrite Hcount, Hc. reflexivity.
      * assert (Hwait : waited (LogAttempt attempt :: events r ++
                                [LogAttemptFailed attempt e0]) = 0%Z).
        { cbn [waited]. rewrite waited_app, Hwr. reflexivity. }
        assert (Hcount : attemptsMade
                  (LogAttempt attempt :: events r ++
                   [LogAttemptFailed attempt e0]) = 1).
        { change (LogAttempt attempt :: events r ++
                  [LogAttemptFailed attempt e0])
            with ([LogAttempt attempt] ++ events r ++
                  [LogAttemptFailed attempt e0]).
          rewrite !attemptsMade_app, (attemptsMade_remote _ Hq).
          unfold attemptsMade. simpl. lia. }
        assert (Hin : forall x,
                   In x (LogAttempt attempt :: events r ++
                         [LogAttemptFailed attempt e0]) ->
                   x = LogAttempt attempt \/ In x (events r) \/
                   x = LogAttemptFailed attempt e0).
        { intros x [H|H]; [auto|]. apply in_app_or in H as [H|H]; [auto|].
          destruct H as [H|[]]; auto. }
        destruct (attempt =? MAX_RETRIES)%nat eqn:Hlast3;
          cbn [outcome final events]; rewrite Hwait;
          (split; [lia|]); (split; [lia|]); split.
        -- intros e H He. apply Hin in H.
           destruct H as [H|[H|H]]; try discriminate.
           ++ now apply Hnf in H.
           ++ injection H as _ <-. congruence.
        -- intros e H He. unfold localCustomers. rewrite Hst.
           split; [reflexivity|]. rewrite Hcount.
           apply Nat.eqb_eq in Hlast3. unfold MAX_RETRIES in *. lia.
        -- intros e H He. apply Hin in H.
           destruct H as [H|[H|H]]; try discriminate.
           ++ now apply Hnf in H.
           ++ injection H as _ <-. congruence.
        -- intros e H He. apply Hin in H.
           destruct H as [H|[H|H]]; try discriminate.
           ++ now apply Hnf in H.
           ++ injection H as E _. apply Nat.eqb_neq in Hlast3. congruence.
Qed.


(** The cycle with its throttle written out. *)
Lemma retry_explicit (w : World) :
  let elapsed := (now w - lastApiCall w)%Z in
  let late := (elapsed <? MIN_API_INTERVAL)%Z in
  let w' := if late then wakeUp (MIN_API_INTERVAL - elapsed) w else w in
  let r := attemptLoop parseInt parseFloat cfg MAX_RETRIES 1 w' in
  fetchFromGoogleSheetsWithRetry parseInt parseFloat cfg w =
  mkRun (outcome r) (final r)
        ((if late then [Slept (MIN_API_INTERVAL - elapsed)] else [])
         ++ events r).
Proof.
  cbv zeta. unfold fetchFromGoogleSheetsWithRetry.
  generalize (attemptLoop parseInt parseFloat cfg MAX_RETRIES 1) as loop.
  intros loop. unfold bind, ask, sleep, bind, emit, update, ret. simpl.
  destruct (now w - lastApiCall w <? MIN_API_INTERVAL)%Z; reflexivity.
Qed.

(** X4. The throttle of a fetch cycle is decided once, on entry, from
    the time of the last call as it stands then: when less than 1000 ms
    have elapsed since, the cycle waits for exactly the missing time
    and starts its first attempt as soon as it wakes up; otherwise it
    starts at once.  The time of the last call is not looked at again
    after the wait: whatever the calls that ran during the wait have
    written there, the attempt starts, so that calls which overlap can
    start their attempts less than 1000 ms apart. *)
Theorem throttle_spacing (w : World) :
  let run := fetchFromGoogleSheetsWithRetry parseInt parseFloat cfg w in
  let elapsed := (now w - lastApiCall w)%Z in
  ((elapsed < 1000)%Z ->
   let woken := wakeUp (1000 - elapsed) w in
   now woken = (lastApiCall w + 1000)%Z /\
   lastApiCall woken = overlapping w (now woken) (lastApiCall w) /\
   outcome run =
     outcome (attemptLoop parseInt parseFloat cfg MAX_RETRIES 1 woken) /\
   exists rest,
     events run = Slept (1000 - elapsed) :: LogAttempt 1 :: rest) /\
  ((1000 <= elapsed)%Z ->
   exists rest, events run = LogAttempt 1 :: rest).
Proof.
  cbv zeta. rewrite retry_explicit. cbv zeta. cbn [events final outcome].
  unfold MIN_API_INTERVAL.
  destruct (Z.ltb_spec (now w - lastApiCall w) 1000) as [Hlate|Hok].
  - set (w' := wakeUp _ w).
    destruct (attemptLoop_first parseInt parseFloat cfg 2 1 w')
      as (rest & Hrest).
    fold MAX_RETRIES in Hrest. rewrite Hrest.
    split; [|lia]. intros _.
    split; [subst w'; unfold wakeUp; cbn [now withNow withLastApiCall]; lia|].
    split; [reflexivity|]. split; [reflexivity|].
    simpl. eauto.
  - destruct (attemptLoop_first parseInt parseFloat cfg 2 1 w)
      as (rest & Hrest).
    fold MAX_RETRIES in Hrest. rewrite Hrest.
    split; [lia|]. intros _. simpl. eauto.
Qed.

(** X5. Beyond the throttle wait, a cycle spends at most 14000 ms in
    timed waits; it spends exactly that, and then throws, when the third
    attempt fails with a rate-limit error: the 8000 ms wait after the
    last attempt is served although no attempt follows it. *)
Theorem backoff_total_bounded (w : World) :
  let run := fetchFromGoogleSheetsWithRetry parseInt parseFloat cfg w in
  let throttle := Z.max 0 (1000 - (now w - lastApiCall w)) in
  (throttle <= waited (events run) <= throttle + 14000)%Z /\
  forall e,
    In (LogAttemptFailed 3 e) (events run) ->
    isRateLimit e = true ->
    waited (events run) = (throttle + 14000)%Z /\
    outcome run = Thrown exhausted /\
    exists before, events run = before ++ [Slept 8000].
Proof.
  cbv zeta.
  pose proof (retry_outcome parseInt parseFloat cfg w) as Hout.
  cbv zeta in Hout. destruct Hout as (_ & _ & _ & Hexh).
  revert Hexh. rewrite retry_explicit. cbv zeta. cbn [events final outcome].
  unfold MIN_API_INTERVAL. intros Hexh.
  set (late := (now w - lastApiCall w <? 1000)%Z).
  set (w' := if late then _ else w).
  pose proof (attemptLoop_more MAX_RETRIES 1 w' eq_refl (le_n 1)) as H.
  cbv zeta in H. destruct H as (Hb & _ & Hex & _).
  change (backoffDelay 1) with 2000%Z in *.
  rewrite waited_app.
  assert (Hthr : waited (if late
                         then [Slept (1000 - (now w - lastApiCall w))]
                         else []) =
                 Z.max 0 (1000 - (now w - lastApiCall w))).
  { subst late. destruct (Z.ltb_spec (now w - lastApiCall w) 1000);
      cbn [waited]; lia. }
  rewrite Hthr. split; [lia|].
  intros e Hin He.
  assert (Hin' : In (LogAttemptFailed 3 e)
                    (events (attemptLoop parseInt parseFloat cfg
                               MAX_RETRIES 1 w'))).
  { apply in_app_or in Hin as [Hin|Hin]; [|exact Hin].
    destruct late; simpl in Hin; [destruct Hin as [Hin|Hin]|];
      try discriminate; contradiction. }
  destruct (Hex e Hin' He) as (Hw & before & Hbefore).
  rewrite Hw. split; [lia|].
  split; [exact (proj1 (Hexh e Hin He))|].
  rewrite Hbefore. eexists. rewrite app_assoc. reflexivity.
Qed.


(** X6. When the third attempt fails with an error that is not of the
    rate-limit class, the cycle itself answers from the cache: it
    returns the cached records (the empty sequence when there is none)
    instead of throwing, and so does [getCustomers], in every
    configuration. *)
Theorem last_attempt_served_from_cache (w : World) (e : Error) :
  let cycle := fetchFromGoogleSheetsWithRetry parseInt parseFloat cfg w in
  In (LogAttemptFailed 3 e) (events cycle) ->
  isRateLimit e = false ->
  outcome cycle = Returned (localCustomers w) /\
  attemptsMade (events cycle) = 3 /\
  outcome (getCustomers parseInt parseFloat cfg w)
    = Returned (localCustomers w).
Proof.
  cbv zeta. intros Hin He.
  assert (Hcycle : outcome (fetchFromGoogleSheetsWithRetry parseInt
                              parseFloat cfg w)
                   = Returned (localCustomers w) /\
                   attemptsMade (events (fetchFromGoogleSheetsWithRetry
                                           parseInt parseFloat cfg w)) = 3).
  { revert Hin. rewrite retry_explicit. cbv zeta.
    cbn [events final outcome]. unfold MIN_API_INTERVAL.
    set (late := (now w - lastApiCall w <? 1000)%Z).
    set (w' := if late then _ else w).
    intros Hin.
    assert (Hst : stored w' = stored w) by (subst w'; destruct late; auto).
    pose proof (attemptLoop_more MAX_RETRIES 1 w' eq_refl (le_n 1)) as H.
    cbv zeta in H. destruct H as (_ & _ & _ & Hfb).
    assert (Hin' : In (LogAttemptFailed 3 e)
                      (events (attemptLoop parseInt parseFloat cfg
                                 MAX_RETRIES 1 w'))).
    { apply in_app_or in Hin as [Hin|Hin]; [|exact Hin].
      destruct late; simpl in Hin; [destruct Hin as [Hin|Hin]|];
        try discriminate; contradiction. }
    destruct (Hfb e Hin' He) as (Ho & Hn).
    rewrite Ho. unfold localCustomers. rewrite Hst.
    split; [reflexivity|].
    rewrite attemptsMade_app, Hn. destruct late; reflexivity. }
  destruct Hcycle as (Ho & Hn). split; [exact Ho|]. split; [exact Hn|].
  destruct (configured cfg) eqn:Hc.
  - rewrite getCustomers_configured by exact Hc. cbv zeta. now rewrite Ho.
  - now rewrite getCustomers_unconfigured.
Qed.

(** X7. An answer with status 429, to the request for the spreadsheet
    information or to the request for the values, makes the attempt
    fail with an error of the rate-limit class. *)
Theorem status_429_is_rate_limit (w : World) (r : Http.Response) :
  Http.status r = 429 ->
  infoReply (exchanges w (fetchCalls w)) = Http.Resolved r \/
  (valuesReply (exchanges w (fetchCalls w)) = Http.Resolved r /\
   exists r0 v,
     infoReply (exchanges w (fetchCalls w)) = Http.Resolved r0 /\
     Http.ok r0 = true /\ Http.json r0 = Http.Object v) ->
  exists e,
    outcome (fetchFromGoogleSheets parseInt parseFloat cfg w) = Thrown e /\
    isRateLimit e = true.
Proof.
  intros Hstatus Hreply.
  assert (Hok : Http.ok r = false) by (unfold Http.ok; now rewrite Hstatus).
  unfold fetchFromGoogleSheets, bind, ask, update, fetch, jsonOf, emit,
    throw, ret, bind.
  simpl.
  destruct Hreply as [Hinfo|(Hvalues & r0 & v & Hinfo & Hok0 & Hjson)];
    rewrite Hinfo; simpl.
  - rewrite Hok. simpl. eexists. split; [reflexivity|].
    rewrite Hstatus. reflexivity.
  - rewrite Hok0, Hjson. simpl. rewrite Hvalues. simpl. rewrite Hok. simpl.
    eexists. split; [reflexivity|].
    unfold isRateLimit. cbn [message]. rewrite Hstatus.
    apply orb_true_iff. left.
    exact (includes_middle "429" "HTTP error! status: "
             (", message: " ++ Http.text r)).
Qed.

(** X8. Whatever happens, [getCustomers] leaves the cache either as it
    found it or holding what JSON keeps of the record set it returns
    (each record with an age or a weight that is not finite replaced by
    [null]); the second is possible only in production with a non-empty
    spreadsheet identifier and key and with a storage that accepts the
    write. *)
Theorem getCustomers_cache_effect (w : World) :
  let run := getCustomers parseInt parseFloat cfg w in
  stored (final run) = stored w \/
  (configured cfg = true /\ writable w = true /\
   exists data, outcome run = Returned data /\
                stored (final run) = Some (jsonRoundTrip data) /\
                localCustomers (final run) = jsonRoundTrip data).
Proof.
  cbv zeta.
  pose proof (retry_outcome parseInt parseFloat cfg w) as H.
  cbv zeta in H. destruct H as ((Hs & Hw) & _).
  destruct (configured cfg) eqn:Hc.
  - rewrite getCustomers_configured by exact Hc. cbv zeta.
    destruct (outcome (fetchFromGoogleSheetsWithRetry parseInt parseFloat
                         cfg w)) as [data|e]; cbn [final outcome].
    + rewrite Hw. destruct (writable w).
      * right. split; [reflexivity|]. split; [reflexivity|].
        exists data. rewrite localCustomers_saved. auto.
      * left. exact Hs.
    + left. exact Hs.
  - rewrite getCustomers_unconfigured by exact Hc. left. exact Hs.
Qed.

(** X9. In production with a non-empty spreadsheet identifier and key,
    [getCustomers] never throws: whatever the remote side answers and
    whether or not the storage accepts a write, the caller gets a
    sequence of records. *)
Theorem production_read_never_throws (w : World) :
  configured cfg = true ->
  exists data, outcome (getCustomers parseInt parseFloat cfg w)
               = Returned data.
Proof.
  intros Hc. rewrite getCustomers_configured by exact Hc. cbv zeta.
  destruct (outcome (fetchFromGoogleSheetsWithRetry parseInt parseFloat
                       cfg w)); cbn [outcome]; eauto.
Qed.

Lemma attempts_positive (w : World) :
  1 <= attemptsMade (events (getCustomers parseInt parseFloat cfg w)).
Proof.
  rewrite events_getCustomers, retry_explicit. cbv zeta. cbn [events].
  match goal with
  | |- context [attemptLoop _ _ _ _ _ ?x] => set (w' := x)
  end.
  destruct (attemptLoop_first parseInt parseFloat cfg 2 1 w')
    as (rest & Hrest).
  fold MAX_RETRIES in Hrest. rewrite attemptsMade_app, Hrest.
  unfold attemptsMade at 2. simpl. lia.
Qed.

(** X10. [getCustomerById] costs a whole read: it does exactly what
    [getCustomers] does, at least one remote attempt included, and
    throws when that throws.  A record it returns carries the requested
    identifier and belongs to the sequence read; it returns nothing only
    when no record of that sequence carries the identifier. *)
Theorem getCustomerById_spec (wanted : string) (w : World) :
  let read := getCustomers parseInt parseFloat cfg w in
  let run := getCustomerById parseInt parseFloat cfg wanted w in
  events run = events read /\
  final run = final read /\
  1 <= attemptsMade (events run) /\
  (forall e, outcome read = Thrown e -> outcome run = Thrown e) /\
  (forall c, outcome run = Returned (Some c) ->
             id c = wanted /\
             exists customers,
               outcome read = Returned customers /\ In c customers) /\
  (outcome run = Returned None ->
   exists customers,
     outcome read = Returned customers /\
     forall c, In c customers -> id c <> wanted).
Proof.
  cbv zeta. pose proof (attempts_positive w) as Hpos.
  unfold getCustomerById. rewrite bind_run.
  destruct (outcome (getCustomers parseInt parseFloat cfg w))
    as [customers|e0] eqn:Ho; cbn [outcome final events ret].
  - rewrite app_nil_r. repeat split; try exact Hpos.
    + intros e H. discriminate.
    + injection H as H. apply find_some in H as (_ & H).
      now apply String.eqb_eq.
    + injection H as H. apply find_some in H as (H & _). eauto.
    + intros H. injection H as H. exists customers. split; [reflexivity|].
      intros c Hin E.
      apply (find_none _ _ H) in Hin. cbv beta in Hin.
      apply String.eqb_neq in Hin. contradiction.
  - repeat split; try exact Hpos; try discriminate.
    intros e H. injection H as ->. reflexivity.
Qed.

End RetryFacts.

(** ** Updating and deleting cached records *)

Section CacheFacts.
Import JS GoogleSheetsService.

Variables parseInt parseFloat : string -> number.
Variable cfg : Config.

Lemma update_unknown_not_found (w : World) (customer : CustomerData) :
  findIndex (sameId customer) (localCustomers w) = None ->
  updateCustomer parseInt parseFloat cfg customer w
  = mkRun (Thrown notFound) w [].
Proof.
  intros Hnone. unfold updateCustomer.
  rewrite bind_run, getLocalCustomers_run. cbn [outcome final events].
  rewrite Hnone. reflexivity.
Qed.

(** X11. Updating a record whose identifier the cache does not hold
    fails with the not-found error before anything happens: the cache is
    untouched and nothing is sent, in every environment. *)
Theorem update_unknown_record (w : World) (customer : CustomerData) :
  findIndex (sameId customer) (localCustomers w) = None ->
  let run := updateCustomer parseInt parseFloat cfg customer w in
  outcome run = Thrown notFound /\ final run = w /\ events run = [].
Proof.
  intros Hnone. cbv zeta.
  rewrite (update_unknown_not_found w customer Hnone). repeat split.
Qed.

(** What the cache reads as once an edit has been saved. *)
Lemma localCustomers_edited (w : World) (customer : CustomerData) (j : nat) :
  localCustomers
    (withStored
       (Some (jsonRoundTrip (assignAt j customer (localCustomers w)))) w)
  = assignAt j (jsonCustomer customer) (localCustomers w).
Proof.
  rewrite localCustomers_saved. unfold jsonRoundTrip.
  rewrite map_assignAt_commute. f_equal. apply localCustomers_json.
Qed.

(** X12. Outside production an update of a cached record is purely
    local and always reports success: nothing is sent.  With a storage
    that accepts the write, the cache afterwards holds the same
    identifiers in the same order, a lookup by the record's identifier
    finds the new version as JSON keeps it (an age or a weight that is
    not finite replaced by [null]), which is the new version itself
    when both are finite, and every other position is unchanged; with a
    storage that refuses it, the cache is unchanged although the call
    returns normally. *)
Theorem update_outside_production (w : World) (customer : CustomerData)
        (j : nat) :
  NODE_ENV cfg <> "production" ->
  findIndex (sameId customer) (localCustomers w) = Some j ->
  let run := updateCustomer parseInt parseFloat cfg customer w in
  outcome run = Returned tt /\ events run = [] /\
  (writable w = true ->
   map id (localCustomers (final run)) = map id (localCustomers w) /\
   find (sameId customer) (localCustomers (final run))
   = Some (jsonCustomer customer) /\
   (finiteNumbers customer = true ->
    find (sameId customer) (localCustomers (final run)) = Some customer) /\
   forall i, i <> j ->
     nth_error (localCustomers (final run)) i
     = nth_error (localCustomers w) i) /\
  (writable w = false -> final run = w).
Proof.
  intros Henv Hfound. cbv zeta. unfold updateCustomer.
  rewrite bind_run, getLocalCustomers_run. cbn [outcome final events].
  rewrite Hfound. rewrite bind_run, saveLocalCustomers_run.
  cbn [outcome final events app].
  apply String.eqb_neq in Henv. rewrite Henv. cbn [ret outcome final events].
  split; [reflexivity|]. split; [reflexivity|].
  destruct (writable w); split; try discriminate; intros _.
  - rewrite localCustomers_edited.
    destruct (findIndex_some _ _ _ Hfound) as ((x & Hx & Hpx) & _).
    assert (Hnew : find (sameId customer)
                     (assignAt j (jsonCustomer customer) (localCustomers w))
                   = Some (jsonCustomer customer)).
    { apply find_assignAt; [exact Hfound|].
      unfold sameId. apply String.eqb_refl. }
    split; [|split; [|split]].
    + apply (map_assignAt id _ j (jsonCustomer customer) x Hx).
      unfold sameId in Hpx. now apply String.eqb_eq in Hpx.
    + exact Hnew.
    + intros Hfin. rewrite Hnew. f_equal. now apply jsonCustomer_finite.
    + intros i Hi. now apply nth_assignAt_other.
  - reflexivity.
Qed.

Lemma updateCustomerInSheets_stored (w : World) (customer : CustomerData) :
  stored (final (updateCustomerInSheets parseInt parseFloat cfg customer w))
  = stored (final (getCustomers parseInt parseFloat cfg w)).
Proof.
  unfold updateCustomerInSheets.
  generalize (getCustomers parseInt parseFloat cfg) as read.
  intros read. rewrite bind_run.
  destruct (outcome (read w)) as [customers|e]; cbn [final]; [|reflexivity].
  destruct (findIndex (sameId customer) customers) as [i|];
    [|reflexivity].
  unfold bind, ask, update, fetch, bind, emit, throw, ret, jsonOf.
  cbn [outcome final events].
  destruct (putReplies (final (read w)) (putCalls (final (read w))))
    as [e|response]; cbn [outcome final events]; [reflexivity|].
  destruct (Http.ok response); cbn [negb outcome final events];
    [reflexivity|].
  destruct (Http.json response); reflexivity.
Qed.

Lemma updateCustomer_production_final (w : World) (customer : CustomerData)
      (j : nat) :
  NODE_ENV cfg = "production" ->
  findIndex (sameId customer) (localCustomers w) = Some j ->
  final (updateCustomer parseInt parseFloat cfg customer w) =
  final (updateCustomerInSheets parseInt parseFloat cfg customer
           (final (saveLocalCustomers
                     (assignAt j customer (localCustomers w)) w))).
Proof.
  intros Hprod Hfound. unfold updateCustomer.
  generalize (updateCustomerInSheets parseInt parseFloat cfg customer)
    as remote.
  intros remote. rewrite Hprod.
  rewrite bind_run, getLocalCustomers_run. cbn [outcome final events].
  rewrite Hfound. rewrite bind_run, saveLocalCustomers_run.
  cbn [outcome final events app].
  change (("production" =? "production")%string) with true. cbv iota.
  reflexivity.
Qed.

(** X13. In production with a non-empty spreadsheet identifier and key
    and a storage that accepts writes, an update whose look-up reads the
    sheet successfully leaves the cache holding what JSON keeps of the
    set just read (the set itself when every age and weight in it is
    finite): the edited record written to the cache at the start of the
    update is overwritten by the sheet's state as fetched before the
    remote write. *)
Theorem production_update_leaves_fetched_set (w : World)
        (customer : CustomerData) (j : nat) (data : list CustomerData) :
  configured cfg = true ->
  writable w = true ->
  findIndex (sameId customer) (localCustomers w) = Some j ->
  let run := updateCustomer parseInt parseFloat cfg customer w in
  In (LogParsed data) (events run) ->
  stored (final run) = Some (jsonRoundTrip data) /\
  localCustomers (final run) = jsonRoundTrip data /\
  (forallb finiteNumbers data = true -> localCustomers (final run) = data).
Proof.
  intros Hconf Hw Hfound. cbv zeta.
  destruct (configured_nonempty cfg Hconf) as (Hprod & _).
  destruct (updateCustomer_production parseInt parseFloat cfg w customer j
              Hprod Hfound) as (_ & Hev).
  cbv zeta in Hev. rewrite Hev.
  intros Hin.
  assert (Hstored : stored (final (updateCustomer parseInt parseFloat cfg
                                     customer w))
                    = Some (jsonRoundTrip data)).
  { revert Hin.
    rewrite (updateCustomer_production_final w customer j Hprod Hfound).
    rewrite updateCustomerInSheets_stored.
    rewrite saveLocalCustomers_run. cbn [final]. rewrite Hw.
    set (w1 := withStored _ w).
    intros Hin.
    assert (Hread : In (LogParsed data)
                       (events (getCustomers parseInt parseFloat cfg w1))).
    { pose proof (updateCustomerInSheets_run parseInt parseFloat cfg w1
                    customer) as H.
      cbv zeta in H.
      destruct (outcome (getCustomers parseInt parseFloat cfg w1))
        as [customers|e].
      - destruct (findIndex (sameId customer) customers) as [i|].
        + rewrite H in Hin. apply in_app_or in Hin as [Hin|[Hin|[]]];
            [exact Hin|discriminate].
        + destruct H as (_ & H). now rewrite H in Hin.
      - destruct H as (_ & H). now rewrite H in Hin. }
    rewrite events_getCustomers in Hread.
    pose proof (retry_outcome parseInt parseFloat cfg w1) as H.
    cbv zeta in H. destruct H as ((_ & Hw') & Hpar & _).
    rewrite getCustomers_configured by exact Hconf. cbv zeta.
    rewrite (Hpar data Hread), Hw'. cbn [final].
    subst w1. cbn [writable withStored]. rewrite Hw. reflexivity. }
  assert (Hcache : localCustomers (final (updateCustomer parseInt parseFloat
                                            cfg customer w))
                   = jsonRoundTrip data).
  { unfold localCustomers. rewrite Hstored. apply jsonRoundTrip_idem. }
  split; [exact Hstored|]. split; [exact Hcache|].
  intros Hfin. rewrite Hcache. now apply jsonRoundTrip_finite.
Qed.

(** X14. An update in production that gets as far as the remote write
    succeeds exactly when that write is answered with a 2xx status: a
    rejected request throws its own error, and any other status throws
    as well. *)
Theorem production_update_outcome (w : World) (customer : CustomerData)
        (j i : nat) (customers : list CustomerData) :
  NODE_ENV cfg = "production" ->
  findIndex (sameId customer) (localCustomers w) = Some j ->
  let w1 :=
    final (saveLocalCustomers (assignAt j customer (localCustomers w)) w) in
  let read := getCustomers parseInt parseFloat cfg w1 in
  let run := updateCustomer parseInt parseFloat cfg customer w in
  outcome read = Returned customers ->
  findIndex (sameId customer) customers = Some i ->
  match putReplies (final read) (putCalls (final read)) with
  | Http.Rejected e => outcome run = Thrown e
  | Http.Resolved response =>
      if Http.ok response then outcome run = Returned tt
      else exists e, outcome run = Thrown e
  end.
Proof.
  intros Hprod Hfound. cbv zeta.
  destruct (updateCustomer_production parseInt parseFloat cfg w customer j
              Hprod Hfound) as (Ho & _).
  cbv zeta in Ho. rewrite Ho. clear Ho.
  set (w1 := final (saveLocalCustomers _ w)).
  unfold updateCustomerInSheets.
  generalize (getCustomers parseInt parseFloat cfg) as read.
  intros read Hread Hi. rewrite bind_run, Hread, Hi.
  unfold bind, ask, update, fetch, bind, emit, throw, ret, jsonOf.
  cbn [outcome final events].
  destruct (putReplies (final (read w1)) (putCalls (final (read w1))))
    as [e|response]; cbn [outcome final events]; [reflexivity|].
  destruct (Http.ok response); cbn [negb outcome final events];
    [reflexivity|].
  destruct (Http.json response); cbn [outcome final events];
    eexists; reflexivity.
Qed.

Lemma deleteCustomer_run (wanted : string) (w : World) :
  deleteCustomer wanted w =
  mkRun (Returned tt)
        (if writable w
         then withStored
                (Some (filter (fun c => negb (id c =? wanted)%string)
                              (localCustomers w))) w
         else w)
        [].
Proof.
  unfold deleteCustomer, tryCatch.
  rewrite bind_run, getLocalCustomers_run. cbn [outcome final events].
  rewrite saveLocalCustomers_run. unfold jsonRoundTrip.
  rewrite (map_fixed jsonCustomer
             (filter (fun c => negb (id c =? wanted)%string)
                     (localCustomers w)))
    by apply Forall_filter, localCustomers_fixed.
  reflexivity.
Qed.

Lemma localCustomers_filtered (q : CustomerData -> bool) (w : World) :
  localCustomers (withStored (Some (filter q (localCustomers w))) w)
  = filter q (localCustomers w).
Proof.
  unfold localCustomers at 1. cbn [stored withStored].
  apply map_fixed, Forall_filter, localCustomers_fixed.
Qed.

(** X15. Deleting a customer is local and never fails: nothing is sent
    to the remote source, even in production, and no exception reaches
    the caller.  With a storage that accepts the write, the cache
    afterwards holds exactly the records it held whose identifier
    differs from the deleted one; with a storage that refuses it,
    nothing changes. *)
Theorem delete_is_local (wanted : string) (w : World) :
  let run := deleteCustomerCompletely wanted w in
  outcome run = Returned tt /\ events run = [] /\
  (writable w = true ->
   forall c, In c (localCustomers (final run)) <->
             In c (localCustomers w) /\ id c <> wanted) /\
  (writable w = false -> final run = w).
Proof.
  cbv zeta. unfold deleteCustomerCompletely. rewrite deleteCustomer_run.
  cbn [outcome final events]. split; [reflexivity|]. split; [reflexivity|].
  destruct (writable w); split; try discriminate; intros _.
  - intros c. rewrite localCustomers_filtered.
    rewrite filter_In, negb_true_iff, String.eqb_neq. reflexivity.
  - reflexivity.
Qed.

(** X16. After a customer has been deleted (the storage accepting the
    write), an update of a record with that identifier fails with the
    not-found error. *)
Theorem update_after_delete_fails (w : World) (customer : CustomerData) :
  writable w = true ->
  outcome (updateCustomer parseInt parseFloat cfg customer
             (final (deleteCustomerCompletely (id customer) w)))
  = Thrown notFound.
Proof.
  intros Hw.
  rewrite update_unknown_not_found; [reflexivity|].
  unfold deleteCustomerCompletely. rewrite deleteCustomer_run.
  cbn [final]. rewrite Hw. rewrite localCustomers_filtered.
  apply findIndex_none. intros x Hx. apply filter_In in Hx as (_ & Hx).
  unfold sameId. apply negb_true_iff in Hx. exact Hx.
Qed.

(** X17. Clearing the local data removes the offline fallback: nothing
    is sent, the cache is empty afterwards, and a production read made
    next whose fetch cycle throws returns the empty sequence. *)
Theorem clear_removes_fallback (w : World) :
  let cleared := final (clearLocalData w) in
  events (clearLocalData w) = [] /\
  localCustomers cleared = [] /\
  (configured cfg = true ->
   forall e,
     outcome (fetchFromGoogleSheetsWithRetry parseInt parseFloat cfg cleared)
     = Thrown e ->
     outcome (getCustomers parseInt parseFloat cfg cleared) = Returned []).
Proof.
  cbv zeta. split; [reflexivity|]. split; [reflexivity|].
  intros Hconf e Hthrown.
  rewrite getCustomers_configured by exact Hconf. cbv zeta.
  rewrite Hthrown. cbn [outcome]. f_equal.
  pose proof (retry_outcome parseInt parseFloat cfg
                (final (clearLocalData w))) as H.
  cbv zeta in H. destruct H as ((Hs & _) & _).
  unfold localCustomers. rewrite Hs. reflexivity.
Qed.

End CacheFacts.

(** ** The photo store *)

Section FilterFacts.
Import JS.
Context {A : Type}.

Lemma filter_all_length (q : A -> bool) (l : list A) :
  List.length (filter q l) = List.length l <->
  forall x, In x l -> q x = true.
Proof.
  induction l as [|x l IH]; cbn [filter].
  - split; [intros _ y []|reflexivity].
  - pose proof (filter_length_le q l) as Hle.
    destruct (q x) eqn:Hq; cbn [List.length].
    + split.
      * intros [= H] y [<-|Hy]; [exact Hq|]. now apply IH.
      * intros H. f_equal. apply IH. intros y Hy. apply H. now right.
    + split; [intros H; lia|]. intros H.
      rewrite (H x (or_introl eq_refl)) in Hq. discriminate.
Qed.

Lemma filter_split_length (q : A -> bool) (l : list A) :
  List.length l - List.length (filter (fun x => negb (q x)) l)
  = List.length (filter q l).
Proof.
  induction l as [|x l IH]; cbn [filter]; [reflexivity|].
  pose proof (filter_length_le (fun x => negb (q x)) l) as Hle.
  destruct (q x); cbn [negb List.length]; lia.
Qed.

Lemma filter_filter_disjoint (q1 q2 : A -> bool) (l : list A) :
  (forall x, q1 x = true -> q2 x = false) ->
  filter q1 (filter (fun x => negb (q2 x)) l) = filter q1 l.
Proof.
  intros Hd. induction l as [|x l IH]; simpl; [reflexivity|].
  destruct (q2 x) eqn:H2; simpl.
  - destruct (q1 x) eqn:H1; [|exact IH].
    rewrite (Hd x H1) in H2. discriminate.
  - destruct (q1 x); now rewrite IH.
Qed.

Lemma filter_negb_same (q : A -> bool) (l : list A) :
  filter q (filter (fun x => negb (q x)) l) = [].
Proof.
  induction l as [|x l IH]; simpl; [reflexivity|].
  destruct (q x) eqn:Hq; simpl; [exact IH|]. now rewrite Hq.
Qed.

Lemma filter_updateAt_length (q : A -> bool) (f : A -> A) (l : list A)
      (i : nat) :
  (forall x, q (f x) = q x) ->
  List.length (filter q (updateAt i f l)) = List.length (filter q l).
Proof.
  intros Hq. revert i. induction l as [|x l IH]; intros i.
  - destruct i; reflexivity.
  - destruct i as [|i]; simpl.
    + rewrite Hq. destruct (q x); reflexivity.
    + destruct (q x); simpl; now rewrite IH.
Qed.

Lemma map_updateAt {B : Type} (g : A -> B) (f : A -> A) (l : list A)
      (i : nat) :
  (forall x, g (f x) = g x) ->
  map g (updateAt i f l) = map g l.
Proof.
  intros Hg. revert i. induction l as [|x l IH]; intros i.
  - destruct i; reflexivity.
  - destruct i as [|i]; simpl; [now rewrite Hg|now rewrite IH].
Qed.

Lemma find_updateAt (p : A -> bool) (f : A -> A) (l : list A) (j : nat) :
  (forall x, p (f x) = p x) ->
  findIndex p l = Some j ->
  find p (updateAt j f l) = option_map f (find p l).
Proof.
  intros Hp. revert j. induction l as [|x l IH]; intros j; simpl;
    [discriminate|].
  destruct (p x) eqn:Hx.
  - intros [= <-]. simpl. now rewrite Hp, Hx.
  - destruct (findIndex p l) as [k|]; [|discriminate].
    intros [= <-]. simpl. rewrite Hx. now apply IH.
Qed.

Lemma in_updateAt_other (p : A -> bool) (f : A -> A) (l : list A)
      (j : nat) (y : A) :
  (forall x, p (f x) = p x) ->
  findIndex p l = Some j ->
  p y = false ->
  In y (updateAt j f l) <-> In y l.
Proof.
  intros Hp. revert j. induction l as [|x l IH]; intros j; simpl;
    [discriminate|].
  destruct (p x) eqn:Hx.
  - intros [= <-] Hy. simpl. split; intros [E|H]; auto.
    + subst y. rewrite Hp, Hx in Hy. discriminate.
    + subst y. rewrite Hx in Hy. discriminate.
  - destruct (findIndex p l) as [k|]; [|discriminate].
    intros [= <-] Hy. simpl. rewrite (IH k eq_refl Hy). reflexivity.
Qed.

End FilterFacts.

Section PhotoStoreFacts.
Import JS PhotoService.

Lemma photos_of_app (c : string) (w : World) (l : list PetPhoto) :
  getPhotosByCustomerId c (withStored (Some (getAllPhotos w ++ l)) w) =
  getPhotosByCustomerId c w
  ++ filter (fun photo => (customerId photo =? c)%string) l.
Proof. unfold getPhotosByCustomerId. cbn. apply filter_app. Qed.

(** X18. An upload that passes both checks, whose file can be read and
    whose write the storage accepts, succeeds and appends exactly one
    photo: the new photo is the last of all stored photos and the last
    of its customer's, it carries the customer, the file's name and size,
    the data read and the description given, and the photos of every
    other customer are what they were. *)
Theorem accepted_upload_appends (customer : string) (file : File)
        (descr : option string) (w : World) (url : string) :
  (size file <= 5 * 1024 * 1024)%N ->
  List.length (getPhotosByCustomerId customer w) < 50 ->
  readAsDataURL w file = Some url ->
  writable w = true ->
  exists p,
    fst (uploadPhoto customer file descr w)
      = {| success := true; photo := Some p; error := None |} /\
    customerId p = customer /\ fileName p = name file /\
    fileSize p = size file /\ dataUrl p = url /\ description p = descr /\
    getAllPhotos (snd (uploadPhoto customer file descr w))
      = getAllPhotos w ++ [p] /\
    getPhotosByCustomerId customer (snd (uploadPhoto customer file descr w))
      = getPhotosByCustomerId customer w ++ [p] /\
    forall other,
      other <> customer ->
      getPhotosByCustomerId other (snd (uploadPhoto customer file descr w))
      = getPhotosByCustomerId other w.
Proof.
  intros Hsize Hcount Hread Hw. unfold uploadPhoto.
  assert (H1 : (MAX_FILE_SIZE <? size file)%N = false)
    by (apply N.ltb_ge; exact Hsize).
  assert (H2 : (MAX_PHOTOS_PER_CUSTOMER <=?
                List.length (getPhotosByCustomerId customer w))%nat = false)
    by (apply Nat.leb_gt; exact Hcount).
  rewrite H1, H2, Hread, Hw. cbv zeta. cbn [fst snd].
  eexists. split; [reflexivity|].
  cbn [customerId fileName fileSize dataUrl description].
  repeat split.
  - rewrite photos_of_app. cbn [filter customerId].
    now rewrite String.eqb_refl.
  - intros other Hother. rewrite photos_of_app. cbn [filter customerId].
    apply String.eqb_neq in Hother. rewrite String.eqb_sym in Hother.
    rewrite Hother. apply app_nil_r.
Qed.

Lemma upload_appends (customer : string) (file : File)
      (descr : option string) (w : World) :
  success (fst (uploadPhoto customer file descr w)) = true ->
  exists p,
    photo (fst (uploadPhoto customer file descr w)) = Some p /\
    getAllPhotos (snd (uploadPhoto customer file descr w))
    = getAllPhotos w ++ [p] /\
    writable (snd (uploadPhoto customer file descr w)) = true.
Proof.
  unfold uploadPhoto.
  destruct (MAX_FILE_SIZE <? size file)%N; [discriminate|].
  destruct (MAX_PHOTOS_PER_CUSTOMER <=?
            List.length (getPhotosByCustomerId customer w))%nat;
    [discriminate|].
  destruct (readAsDataURL w file) as [url|]; [|discriminate].
  cbv zeta. destruct (writable w) eqn:Hw; [|discriminate].
  intros _. eexists. cbn. rewrite Hw. repeat split.
Qed.

(** X19. [uploadPhoto] changes the browser state only when it reports
    success, and then only by appending the photo it returns: a result
    with [success = false], whatever the reason (size, count, unreadable
    file, refused write), comes with the state it started from. *)
Theorem upload_changes_only_on_success (customer : string) (file : File)
        (descr : option string) (w : World) :
  let result := fst (uploadPhoto customer file descr w) in
  let after := snd (uploadPhoto customer file descr w) in
  (success result = false -> after = w /\ photo result = None /\
                             error result <> None) /\
  (success result = true ->
   exists p, photo result = Some p /\ error result = None /\
             getAllPhotos after = getAllPhotos w ++ [p]).
Proof.
  cbv zeta. unfold uploadPhoto.
  destruct (MAX_FILE_SIZE <? size file)%N;
    [cbn; split; [repeat split|]; discriminate|].
  destruct (MAX_PHOTOS_PER_CUSTOMER <=?
            List.length (getPhotosByCustomerId customer w))%nat;
    [cbn; split; [repeat split|]; discriminate|].
  destruct (readAsDataURL w file) as [url|];
    [|cbn; split; [repeat split|]; discriminate].
  cbv zeta. destruct (writable w);
    [|cbn; split; [repeat split|]; discriminate].
  cbn [fst snd success photo error]. split; [discriminate|].
  intros _. eexists. repeat split.
Qed.

Lemma photos_le (c : string) (q : PetPhoto -> bool) (w : World) :
  List.length
    (getPhotosByCustomerId c (withStored (Some (filter q (getAllPhotos w))) w))
  <= List.length (getPhotosByCustomerId c w).
Proof.
  unfold getPhotosByCustomerId. cbn [getAllPhotos stored withStored].
  fold (getAllPhotos w). generalize (getAllPhotos w) as l.
  induction l as [|p l IH]; cbn [filter]; [lia|].
  destruct (q p); cbn [filter];
    destruct (customerId p =? c)%string; cbn [List.length]; lia.
Qed.

(** X20. No operation of the photo service brings a customer above 50
    stored photos: if every customer has at most 50 before, every
    customer has at most 50 after an upload, after either kind of
    deletion, after a change of description and after clearing. *)
Theorem photo_cap_preserved (w : World) :
  (forall c, List.length (getPhotosByCustomerId c w) <= 50) ->
  (forall customer file descr c,
     List.length
       (getPhotosByCustomerId c (snd (uploadPhoto customer file descr w)))
     <= 50) /\
  (forall photoId c,
     List.length (getPhotosByCustomerId c (snd (deletePhoto photoId w)))
     <= 50) /\
  (forall customer c,
     List.length
       (getPhotosByCustomerId c (snd (deletePhotosByCustomerId customer w)))
     <= 50) /\
  (forall photoId text c,
     List.length
       (getPhotosByCustomerId c (snd (updatePhotoDescription photoId text w)))
     <= 50) /\
  (forall c,
     List.length (getPhotosByCustomerId c (snd (clearAllPhotos w))) <= 50).
Proof.
  intros Hcap. split; [|split; [|split; [|split]]].
  - intros customer file descr c. unfold uploadPhoto.
    destruct (MAX_FILE_SIZE <? size file)%N; [apply Hcap|].
    destruct (Nat.leb_spec MAX_PHOTOS_PER_CUSTOMER
                (List.length (getPhotosByCustomerId customer w)))
      as [Hfull|Hroom]; [apply Hcap|].
    destruct (readAsDataURL w file) as [url|]; [|apply Hcap].
    cbv zeta. destruct (writable w); [|apply Hcap].
    cbn [snd]. rewrite photos_of_app, length_app. cbn [filter customerId].
    destruct (String.eqb_spec customer c) as [->|Hne]; cbn [List.length].
    + unfold MAX_PHOTOS_PER_CUSTOMER in Hroom. lia.
    + specialize (Hcap c). lia.
  - intros photoId c. unfold deletePhoto. cbv zeta.
    destruct (_ =? _)%nat; [apply Hcap|].
    destruct (writable w); [|apply Hcap].
    cbn [snd]. etransitivity; [apply photos_le|apply Hcap].
  - intros customer c. unfold deletePhotosByCustomerId. cbv zeta.
    destruct (writable w); [|apply Hcap].
    cbn [snd]. etransitivity; [apply photos_le|apply Hcap].
  - intros photoId text c. unfold updatePhotoDescription. cbv zeta.
    destruct (findIndex _ (getAllPhotos w)) as [j|]; [|apply Hcap].
    destruct (writable w); [|apply Hcap].
    cbn [snd]. unfold getPhotosByCustomerId at 1. cbn [getAllPhotos stored
      withStored].
    rewrite filter_updateAt_length by reflexivity. apply Hcap.
  - intros c. cbn. lia.
Qed.

(** X21. [deletePhoto] answers [true] exactly when some stored photo
    carries the identifier and the storage accepts the write; it then
    removes every photo with that identifier and keeps all the others.
    When it answers [false] nothing has changed. *)
Theorem deletePhoto_spec (photoId : string) (w : World) :
  let answer := fst (deletePhoto photoId w) in
  let after := snd (deletePhoto photoId w) in
  (answer = true <->
   (exists p, In p (getAllPhotos w) /\ id p = photoId) /\
   writable w = true) /\
  (answer = true ->
   forall p, In p (getAllPhotos after) <->
             In p (getAllPhotos w) /\ id p <> photoId) /\
  (answer = false -> after = w).
Proof.
  cbv zeta. unfold deletePhoto. cbv zeta.
  set (keep := fun photo : PetPhoto => negb (id photo =? photoId)%string).
  destruct (Nat.eqb_spec (List.length (filter keep (getAllPhotos w)))
                         (List.length (getAllPhotos w))) as [Hsame|Hless].
  - cbn [fst snd]. split; [|split; [discriminate|reflexivity]].
    split; [discriminate|]. intros ((p & Hin & Hid) & _). exfalso.
    pose proof (proj1 (filter_all_length keep _) Hsame p Hin) as Hk.
    subst keep. cbv beta in Hk. apply negb_true_iff in Hk.
    apply String.eqb_neq in Hk. contradiction.
  - assert (Hex : exists p, In p (getAllPhotos w) /\ id p = photoId).
    { destruct (existsb (fun p => (id p =? photoId)%string) (getAllPhotos w))
        eqn:He.
      - apply existsb_exists in He as (p & Hin & Hp).
        apply String.eqb_eq in Hp. eauto.
      - exfalso. apply Hless. apply filter_all_length. intros x Hx.
        subst keep. cbv beta. apply negb_true_iff.
        destruct (id x =? photoId)%string eqn:E; [|reflexivity].
        assert (Ht : existsb (fun p => (id p =? photoId)%string)
                             (getAllPhotos w) = true)
          by (apply existsb_exists; eauto).
        congruence. }
    destruct (writable w); cbn [fst snd].
    + split; [split; auto|]. split; [|discriminate].
      intros _ p. cbn [getAllPhotos stored withStored].
      fold (getAllPhotos w). rewrite filter_In. subst keep. cbv beta.
      rewrite negb_true_iff, String.eqb_neq. reflexivity.
    + split; [split; [discriminate|intros (_ & H); discriminate]|].
      split; [discriminate|reflexivity].
Qed.

(** X22. With a storage that accepts the write, deleting a customer's
    photos answers the number of photos that customer had, leaves the
    customer with none and every other customer's photos as they were,
    and shortens the store by exactly the number answered; with a
    storage that refuses the write it answers 0 and changes nothing. *)
Theorem deletePhotosByCustomerId_spec (customer : string) (w : World) :
  let answer := fst (deletePhotosByCustomerId customer w) in
  let after := snd (deletePhotosByCustomerId customer w) in
  (writable w = true ->
   answer = List.length (getPhotosByCustomerId customer w) /\
   getPhotosByCustomerId customer after = [] /\
   (forall other, other <> customer ->
                  getPhotosByCustomerId other after
                  = getPhotosByCustomerId other w) /\
   List.length (getAllPhotos after) + answer
   = List.length (getAllPhotos w)) /\
  (writable w = false -> answer = 0 /\ after = w).
Proof.
  cbv zeta. unfold deletePhotosByCustomerId. cbv zeta.
  destruct (writable w); cbn [fst snd]; split; try discriminate; intros _.
  - pose proof (filter_split_length
                  (fun p => (customerId p =? customer)%string)
                  (getAllPhotos w)) as Hsplit.
    pose proof (filter_length_le
                  (fun p => negb (customerId p =? customer)%string)
                  (getAllPhotos w)) as Hle.
    split; [exact Hsplit|]. split; [|split].
    + unfold getPhotosByCustomerId. cbn [getAllPhotos stored withStored].
      fold (getAllPhotos w).
      apply (filter_negb_same (fun p => (customerId p =? customer)%string)).
    + intros other Hother. unfold getPhotosByCustomerId.
      cbn [getAllPhotos stored withStored]. fold (getAllPhotos w).
      apply (filter_filter_disjoint
               (fun p => (customerId p =? other)%string)
               (fun p => (customerId p =? customer)%string)).
      intros x Hx. apply String.eqb_eq in Hx. apply String.eqb_neq.
      congruence.
    + cbn [getAllPhotos stored withStored]. fold (getAllPhotos w). lia.
  - auto.
Qed.

(** X23. [updatePhotoDescription] answers [true] exactly when some
    stored photo carries the identifier and the storage accepts the
    write.  It then gives the new description to the first photo with
    that identifier and changes nothing else: the identifiers and the
    owners of the stored photos are the same in the same order, and
    every photo with another identifier is kept as it was.  When it
    answers [false] nothing has changed. *)
Theorem updatePhotoDescription_spec (photoId text : string) (w : World) :
  let answer := fst (updatePhotoDescription photoId text w) in
  let after := snd (updatePhotoDescription photoId text w) in
  let wanted := fun p : PetPhoto => (id p =? photoId)%string in
  (answer = true <->
   (exists p, In p (getAllPhotos w) /\ id p = photoId) /\
   writable w = true) /\
  (answer = true ->
   find wanted (getAllPhotos after)
   = option_map (withDescription text) (find wanted (getAllPhotos w)) /\
   map id (getAllPhotos after) = map id (getAllPhotos w) /\
   map customerId (getAllPhotos after) = map customerId (getAllPhotos w) /\
   forall p, id p <> photoId ->
             (In p (getAllPhotos after) <-> In p (getAllPhotos w))) /\
  (answer = false -> after = w).
Proof.
  cbv zeta. unfold updatePhotoDescription. cbv zeta.
  destruct (findIndex (fun photo => (id photo =? photoId)%string)
                      (getAllPhotos w)) as [j|] eqn:Hfind.
  - assert (Hex : exists p, In p (getAllPhotos w) /\ id p = photoId).
    { destruct (findIndex_some _ _ _ Hfind) as ((x & Hx & Hp) & _).
      exists x. split; [eapply nth_error_In; eauto|].
      now apply String.eqb_eq. }
    destruct (writable w); cbn [fst snd].
    + split; [split; auto|]. split; [|discriminate]. intros _.
      cbn [getAllPhotos stored withStored]. fold (getAllPhotos w).
      split; [|split; [|split]].
      * apply find_updateAt; [reflexivity|exact Hfind].
      * apply map_updateAt. reflexivity.
      * apply map_updateAt. reflexivity.
      * intros p Hp.
        apply (in_updateAt_other
                 (fun photo => (id photo =? photoId)%string));
          [reflexivity|exact Hfind|]. now apply String.eqb_neq.
    + split; [split; [discriminate|intros (_ & H); discriminate]|].
      split; [discriminate|reflexivity].
  - cbn [fst snd]. split; [|split; [discriminate|reflexivity]].
    split; [discriminate|]. intros ((p & Hin & Hid) & _). exfalso.
    pose proof (proj1 (findIndex_none _ _) Hfind p Hin) as Hp.
    cbv beta in Hp. apply String.eqb_neq in Hp. contradiction.
Qed.

(** X24. Uploading a photo and then deleting it by the identifier the
    upload returned gives back the stored photos one started from,
    provided no photo stored before carries that identifier. *)
Theorem upload_then_delete (customer : string) (file : File)
        (descr : option string) (w : World) (p : PetPhoto) :
  success (fst (uploadPhoto customer file descr w)) = true ->
  photo (fst (uploadPhoto customer file descr w)) = Some p ->
  (forall q, In q (getAllPhotos w) -> id q <> id p) ->
  fst (deletePhoto (id p) (snd (uploadPhoto customer file descr w))) = true /\
  getAllPhotos
    (snd (deletePhoto (id p) (snd (uploadPhoto customer file descr w))))
  = getAllPhotos w.
Proof.
  intros Hok Hp Hfresh.
  pose proof (upload_appends customer file descr w) as Hup.
  destruct (Hup Hok) as (p' & Hp' & Hall & Hw).
  rewrite Hp in Hp'. injection Hp' as <-.
  set (w1 := snd (uploadPhoto customer file descr w)) in *.
  unfold deletePhoto. cbv zeta. rewrite Hall, Hw.
  assert (Hkeep : filter (fun photo => negb (id photo =? id p)%string)
                         (getAllPhotos w ++ [p]) = getAllPhotos w).
  { rewrite filter_app. cbn [filter]. rewrite String.eqb_refl. cbn [negb].
    rewrite app_nil_r.
    apply forallb_filter_id. apply forallb_forall. intros q Hq.
    apply negb_true_iff, String.eqb_neq. now apply Hfresh. }
  rewrite Hkeep, length_app. cbn [List.length].
  destruct (Nat.eqb_spec (List.length (getAllPhotos w))
                         (List.length (getAllPhotos w) + 1)); [lia|].
  cbn [fst snd getAllPhotos stored withStored]. auto.
Qed.

End PhotoStoreFacts.

(** ** The further properties on the sample worlds *)

Section RetryExamples.
Import JS GoogleSheetsService Sample.

(** A call that wakes up from its throttle wait at the moment another
    call has recorded an attempt starts its own attempt all the same. *)
Lemma throttle_spacing_witness :
  (now overlapped - lastApiCall overlapped < 1000)%Z /\
  now (wakeUp 700 overlapped) = 5700%Z /\
  lastApiCall (wakeUp 700 overlapped) = 5700%Z /\
  exists rest,
    events (fetchFromGoogleSheetsWithRetry parseDecimal parseDecimal
              production overlapped)
    = Slept 700 :: LogAttempt 1 :: rest.
Proof.
  assert (Hlate : (now overlapped - lastApiCall overlapped < 1000)%Z)
    by reflexivity.
  destruct (throttle_spacing parseDecimal parseDecimal production overlapped)
    as (Hwait & _).
  destruct (Hwait Hlate) as (Hnow & Hlast & _ & Hev).
  split; [exact Hlate|]. split; [exact Hnow|]. split; [exact Hlast|exact Hev].
Defined.

Lemma backoff_total_bounded_witness :
  In (LogAttemptFailed 3 tooManyRequests)
     (events (fetchFromGoogleSheetsWithRetry parseDecimal parseDecimal
                development alwaysThrottled)) /\
  isRateLimit tooManyRequests = true /\
  waited (events (fetchFromGoogleSheetsWithRetry parseDecimal parseDecimal
                    development alwaysThrottled)) = 14000%Z.
Proof.
  assert (Hin : In (LogAttemptFailed 3 tooManyRequests)
                   (events (fetchFromGoogleSheetsWithRetry parseDecimal
                              parseDecimal development alwaysThrottled)))
    by (vm_compute; auto 20).
  assert (Hrate : isRateLimit tooManyRequests = true) by reflexivity.
  destruct (backoff_total_bounded parseDecimal parseDecimal development
              alwaysThrottled) as (_ & Hexact).
  destruct (Hexact _ Hin Hrate) as (Hw & _).
  split; [exact Hin|]. split; [exact Hrate|exact Hw].
Defined.

Lemma last_attempt_served_from_cache_witness :
  In (LogAttemptFailed 3 badJson)
     (events (fetchFromGoogleSheetsWithRetry parseDecimal parseDecimal
                development thirdGarbled)) /\
  isRateLimit badJson = false /\
  outcome (getCustomers parseDecimal parseDecimal development thirdGarbled)
  = Returned [formerCustomer].
Proof.
  assert (Hin : In (LogAttemptFailed 3 badJson)
                   (events (fetchFromGoogleSheetsWithRetry parseDecimal
                              parseDecimal development thirdGarbled)))
    by (vm_compute; auto 20).
  assert (Hrate : isRateLimit badJson = false) by reflexivity.
  destruct (last_attempt_served_from_cache parseDecimal parseDecimal
              development thirdGarbled badJson Hin Hrate) as (_ & _ & Hget).
  split; [exact Hin|]. split; [exact Hrate|exact Hget].
Defined.

Lemma status_429_is_rate_limit_witness :
  exists e,
    outcome (fetchFromGoogleSheets parseDecimal parseDecimal production
               alwaysThrottled) = Thrown e /\
    isRateLimit e = true.
Proof.
  apply (status_429_is_rate_limit parseDecimal parseDecimal production
           alwaysThrottled
           (Http.mkResponse 429 "RATE_LIMIT_EXCEEDED" (Http.Object None)));
    [reflexivity|left; reflexivity].
Defined.

Lemma production_read_never_throws_witness :
  configured production = true /\
  exists data,
    outcome (getCustomers parseDecimal parseDecimal production alwaysMissing)
    = Returned data.
Proof.
  split; [reflexivity|].
  exact (production_read_never_throws parseDecimal parseDecimal production
           alwaysMissing eq_refl).
Defined.

Lemma getCustomerById_spec_witness :
  outcome (getCustomerById parseDecimal parseDecimal production "C002"
                           reachable)
  = Returned (Some (customerOfRow parseDecimal parseDecimal day sato 1)) /\
  id (customerOfRow parseDecimal parseDecimal day sato 1) = "C002".
Proof.
  assert (Hrun : outcome (getCustomerById parseDecimal parseDecimal
                            production "C002" reachable)
                 = Returned (Some (customerOfRow parseDecimal parseDecimal
                                     day sato 1))) by reflexivity.
  destruct (getCustomerById_spec parseDecimal parseDecimal production "C002"
              reachable) as (_ & _ & _ & _ & Hfound & _).
  destruct (Hfound _ Hrun) as (Hid & _).
  split; [exact Hrun|exact Hid].
Defined.

End RetryExamples.

Section CacheExamples.
Import JS GoogleSheetsService Sample.

Lemma update_unknown_record_witness :
  findIndex (sameId formerCustomer) (localCustomers synced) = None /\
  outcome (updateCustomer parseDecimal parseDecimal production
                          formerCustomer synced) = Thrown notFound /\
  events (updateCustomer parseDecimal parseDecimal production
                         formerCustomer synced) = [].
Proof.
  assert (Hnone : findIndex (sameId formerCustomer) (localCustomers synced)
                  = None) by reflexivity.
  destruct (update_unknown_record parseDecimal parseDecimal production
              synced formerCustomer Hnone) as (Ho & _ & He).
  split; [exact Hnone|]. split; [exact Ho|exact He].
Defined.

Lemma update_outside_production_witness :
  NODE_ENV development <> "production" /\
  findIndex (sameId satoEdited) (localCustomers synced) = Some 1 /\
  finiteNumbers satoEdited = true /\
  outcome (updateCustomer parseDecimal parseDecimal development satoEdited
                          synced) = Returned tt /\
  find (sameId satoEdited)
       (localCustomers (final (updateCustomer parseDecimal parseDecimal
                                 development satoEdited synced)))
  = Some satoEdited.
Proof.
  assert (Henv : NODE_ENV development <> "production") by discriminate.
  assert (Hfound : findIndex (sameId satoEdited) (localCustomers synced)
                   = Some 1) by reflexivity.
  destruct (update_outside_production parseDecimal parseDecimal development
              synced satoEdited 1 Henv Hfound) as (Ho & _ & Hw & _).
  destruct (Hw eq_refl) as (_ & _ & Hfind & _).
  split; [exact Henv|]. split; [exact Hfound|]. split; [reflexivity|].
  split; [exact Ho|exact (Hfind eq_refl)].
Defined.

Lemma production_update_leaves_fetched_set_witness :
  configured production = true /\
  In (LogParsed parsed)
     (events (updateCustomer parseDecimal parseDecimal production satoEdited
                             synced)) /\
  forallb finiteNumbers parsed = true /\
  localCustomers (final (updateCustomer parseDecimal parseDecimal production
                                        satoEdited synced)) = parsed /\
  ~ In satoEdited parsed.
Proof.
  assert (Hin : In (LogParsed parsed)
                   (events (updateCustomer parseDecimal parseDecimal
                              production satoEdited synced)))
    by (vm_compute; auto 10).
  destruct (production_update_leaves_fetched_set parseDecimal parseDecimal
              production synced satoEdited 1 parsed eq_refl eq_refl
              eq_refl Hin) as (_ & _ & Hs).
  split; [reflexivity|]. split; [exact Hin|]. split; [reflexivity|].
  split; [exact (Hs eq_refl)|].
  vm_compute. intros [H|[H|[]]]; discriminate H.
Defined.

Lemma production_update_outcome_witness :
  NODE_ENV production = "production" /\
  findIndex (sameId satoEdited) (localCustomers writeRefused) = Some 1 /\
  exists e,
    outcome (updateCustomer parseDecimal parseDecimal production satoEdited
                            writeRefused) = Thrown e.
Proof.
  assert (Hfound : findIndex (sameId satoEdited)
                             (localCustomers writeRefused) = Some 1)
    by reflexivity.
  pose proof (production_update_outcome parseDecimal parseDecimal production
                writeRefused satoEdited 1 1 parsed eq_refl Hfound
                eq_refl eq_refl) as H.
  split; [reflexivity|]. split; [exact Hfound|exact H].
Defined.

Lemma delete_is_local_witness :
  writable synced = true /\
  events (deleteCustomerCompletely "C001" synced) = [] /\
  map id (localCustomers (final (deleteCustomerCompletely "C001" synced)))
  = ["C002"] /\
  ~ In (customerOfRow parseDecimal parseDecimal day tanaka 0)
       (localCustomers (final (deleteCustomerCompletely "C001" synced))).
Proof.
  destruct (delete_is_local "C001" synced) as (_ & He & Hw & _).
  split; [reflexivity|]. split; [exact He|]. split; [reflexivity|].
  intros Hin. apply (Hw eq_refl) in Hin as (_ & Hid). now apply Hid.
Defined.

Lemma update_after_delete_fails_witness :
  writable synced = true /\
  outcome (updateCustomer parseDecimal parseDecimal development satoEdited
             (final (deleteCustomerCompletely "C002" synced)))
  = Thrown notFound.
Proof.
  split; [reflexivity|].
  exact (update_after_delete_fails parseDecimal parseDecimal development
           synced satoEdited eq_refl).
Defined.

Lemma clear_removes_fallback_witness :
  configured production = true /\
  outcome (getCustomers parseDecimal parseDecimal production
             (final (clearLocalData alwaysMissing))) = Returned [].
Proof.
  destruct (clear_removes_fallback parseDecimal parseDecimal production
              alwaysMissing) as (_ & _ & Hempty).
  split; [reflexivity|].
  exact (Hempty eq_refl notFound404 eq_refl).
Defined.

End CacheExamples.

Section PhotoStoreExamples.
Import JS PhotoService PhotoSample.

Lemma accepted_upload_appends_witness :
  (size snapshot <= 5 * 1024 * 1024)%N /\
  List.length (getPhotosByCustomerId "C001" browser) < 50 /\
  List.length
    (getPhotosByCustomerId "C001"
       (snd (uploadPhoto "C001" snapshot None browser))) = 3 /\
  getPhotosByCustomerId "C002" (snd (uploadPhoto "C001" snapshot None browser))
  = [tama1].
Proof.
  assert (Hsize : (size snapshot <= 5 * 1024 * 1024)%N) by discriminate.
  assert (Hcount : List.length (getPhotosByCustomerId "C001" browser) < 50)
    by (vm_compute; lia).
  destruct (accepted_upload_appends "C001" snapshot None browser
              "data:image/jpeg;base64,DDDD" Hsize Hcount eq_refl eq_refl)
    as (p & _ & _ & _ & _ & _ & _ & _ & Hmine & Hothers).
  split; [exact Hsize|]. split; [exact Hcount|]. split.
  - rewrite Hmine, length_app. reflexivity.
  - rewrite (Hothers "C002") by discriminate. reflexivity.
Defined.

Lemma upload_changes_only_on_success_witness :
  success (fst (uploadPhoto "C001" {| name := "big.jpg"; size := 6000000 |}
                            None browser)) = false /\
  snd (uploadPhoto "C001" {| name := "big.jpg"; size := 6000000 |}
                   None browser) = browser.
Proof.
  assert (Hfail : success (fst (uploadPhoto "C001"
                                  {| name := "big.jpg"; size := 6000000 |}
                                  None browser)) = false) by reflexivity.
  destruct (upload_changes_only_on_success "C001"
              {| name := "big.jpg"; size := 6000000 |} None browser)
    as (Hsame & _).
  destruct (Hsame Hfail) as (Hw & _).
  split; [exact Hfail|exact Hw].
Defined.

Lemma photo_cap_preserved_witness :
  (forall c, List.length (getPhotosByCustomerId c browser) <= 50) /\
  List.length
    (getPhotosByCustomerId "C001"
       (snd (uploadPhoto "C001" snapshot None browser))) <= 50.
Proof.
  assert (Hcap : forall c,
             List.length (getPhotosByCustomerId c browser) <= 50).
  { intros c. etransitivity; [apply filter_length_le|].
    vm_compute. lia. }
  destruct (photo_cap_preserved browser Hcap) as (Hupload & _).
  split; [exact Hcap|]. apply Hupload.
Defined.

Lemma deletePhoto_spec_witness :
  fst (deletePhoto (id tama1) browser) = true /\
  getAllPhotos (snd (deletePhoto (id tama1) browser)) = [pochi1; pochi2] /\
  ~ In tama1 (getAllPhotos (snd (deletePhoto (id tama1) browser))).
Proof.
  assert (Htrue : fst (deletePhoto (id tama1) browser) = true)
    by reflexivity.
  destruct (deletePhoto_spec (id tama1) browser) as (_ & Hgone & _).
  split; [exact Htrue|]. split; [reflexivity|].
  intros Hin. apply (Hgone Htrue) in Hin as (_ & Hid). now apply Hid.
Defined.

Lemma deletePhotosByCustomerId_spec_witness :
  writable browser = true /\
  fst (deletePhotosByCustomerId "C001" browser) = 2 /\
  getPhotosByCustomerId "C001"
    (snd (deletePhotosByCustomerId "C001" browser)) = [].
Proof.
  destruct (deletePhotosByCustomerId_spec "C001" browser) as (Hw & _).
  destruct (Hw eq_refl) as (Hn & Hnone & _).
  split; [reflexivity|]. split; [rewrite Hn; reflexivity|exact Hnone].
Defined.

Lemma updatePhotoDescription_spec_witness :
  fst (updatePhotoDescription (id pochi2) "after the bath" browser) = true /\
  find (fun p => (id p =? id pochi2)%string)
       (getAllPhotos
          (snd (updatePhotoDescription (id pochi2) "after the bath" browser)))
  = Some (withDescription "after the bath" pochi2).
Proof.
  assert (Htrue : fst (updatePhotoDescription (id pochi2) "after the bath"
                         browser) = true) by reflexivity.
  destruct (updatePhotoDescription_spec (id pochi2) "after the bath" browser)
    as (_ & Hdone & _).
  destruct (Hdone Htrue) as (Hfind & _).
  split; [exact Htrue|]. rewrite Hfind. reflexivity.
Defined.

Lemma upload_then_delete_witness :
  exists p,
    photo (fst (uploadPhoto "C001" snapshot None browser)) = Some p /\
    getAllPhotos
      (snd (deletePhoto (id p)
              (snd (uploadPhoto "C001" snapshot None browser))))
    = getAllPhotos browser.
Proof.
  eexists. split; [reflexivity|].
  refine (proj2 (upload_then_delete "C001" snapshot None browser _
                   eq_refl eq_refl _)).
  intros q [<-|[<-|[<-|[]]]]; discriminate.
Defined.

End PhotoStoreExamples.
